(** * Section building and diversity-aware ranking: a shallow embedding

    The development follows [chunk_sections.py] (the section builder) and
    [rank_sections.py] (theme classifier, diversity selector, presenter).

    Text is a list of characters.  The extraction stage reduces every page
    to 7-bit ASCII before the section builder sees it, so a character is an
    [ascii]; where Python's notion of whitespace or letter case reaches
    beyond 7 bits, the code points up to 255 are classified the way Python
    classifies them.  Relevance scores are Python floats; they are modelled
    by the rationals they denote (no NaN), with exact comparisons.  The
    embedding model and the similarity index are external: the index is a
    parameter [search] of [rank_sections]. *)

From Stdlib Require Import List Bool Arith ZArith NArith QArith Lia.
From Stdlib Require Import Ascii String DecimalString.
From Stdlib Require Import Sorted Permutation.
Import ListNotations.

Local Close Scope Q_scope.
Local Open Scope nat_scope.
Local Open Scope list_scope.

(** ** Python string operations *)

Module Str.

Definition str := list ascii.

Definition lit (s : string) : str := list_ascii_of_string s.

Definition code (c : ascii) : N := N_of_ascii c.

Definition in_range (lo hi : N) (c : ascii) : bool :=
  ((lo <=? code c) && (code c <=? hi))%N.

Definition is_char (n : N) (c : ascii) : bool := (code c =? n)%N.

(** [str.isspace] on one character, as used by [strip()], [split()] and the
    regular-expression class [\s]. *)
Definition is_space (c : ascii) : bool :=
  in_range 9 13 c || in_range 28 32 c || is_char 133 c || is_char 160 c.

Definition is_AZ (c : ascii) : bool := in_range 65 90 c.
Definition is_az (c : ascii) : bool := in_range 97 122 c.
Definition is_digit (c : ascii) : bool := in_range 48 57 c.
Definition is_letter (c : ascii) : bool := is_AZ c || is_az c.

(** [c.isupper()] for a single character. *)
Definition isupper (c : ascii) : bool :=
  is_AZ c || in_range 192 214 c || in_range 216 222 c.

Definition lower_char (c : ascii) : ascii :=
  if isupper c then ascii_of_N (code c + 32) else c.

Definition lower (s : str) : str := map lower_char s.

Definition nl : ascii := ascii_of_N 10.
Definition sp : ascii := ascii_of_N 32.

(** One of ['.'], ['!'], ['?']. *)
Definition is_term (c : ascii) : bool :=
  is_char 46 c || is_char 33 c || is_char 63 c.

Fixpoint lstrip (s : str) : str :=
  match s with
  | [] => []
  | c :: s' => if is_space c then lstrip s' else s
  end.

Definition rstrip (s : str) : str := rev (lstrip (rev s)).

Definition strip (s : str) : str := rstrip (lstrip s).

Fixpoint str_eqb (s t : str) : bool :=
  match s, t with
  | [], [] => true
  | c :: s', d :: t' => Ascii.eqb c d && str_eqb s' t'
  | _, _ => false
  end.

Fixpoint startswith (p s : str) : bool :=
  match p, s with
  | [], _ => true
  | c :: p', d :: s' => Ascii.eqb c d && startswith p' s'
  | _ :: _, [] => false
  end.

(** [sub in s] *)
Fixpoint contains (sub s : str) : bool :=
  startswith sub s ||
  match s with
  | [] => false
  | _ :: s' => contains sub s'
  end.

(** [s.endswith(('.', '!', '?'))] *)
Definition endswith_term (s : str) : bool :=
  match rev s with
  | [] => false
  | c :: _ => is_term c
  end.

(** [s.split(sep)] for a non-empty separator: [skip] counts the characters
    of a separator occurrence still to be dropped, [cur] is the piece being
    read, reversed. *)
Fixpoint split_aux (sep : str) (skip : nat) (cur : str) (s : str) : list str :=
  match s with
  | [] => [rev cur]
  | c :: s' =>
      match skip with
      | S k => split_aux sep k cur s'
      | O =>
          if startswith sep s
          then rev cur :: split_aux sep (List.length sep - 1) [] s'
          else split_aux sep 0 (c :: cur) s'
      end
  end.

Definition split (sep s : str) : list str := split_aux sep 0 [] s.

(** [s.split()] : maximal runs of non-whitespace. *)
Fixpoint split_ws_aux (cur : str) (s : str) : list str :=
  match s with
  | [] => match cur with [] => [] | _ => [rev cur] end
  | c :: s' =>
      if is_space c
      then match cur with
           | [] => split_ws_aux [] s'
           | _ => rev cur :: split_ws_aux [] s'
           end
      else split_ws_aux (c :: cur) s'
  end.

Definition split_ws (s : str) : list str := split_ws_aux [] s.

Definition word_count (s : str) : nat := List.length (split_ws s).

(** [sep.join(l)] *)
Fixpoint join (sep : str) (l : list str) : str :=
  match l with
  | [] => []
  | [x] => x
  | x :: l' => x ++ sep ++ join sep l'
  end.

(** [s.replace(sub, empty)] for a non-empty [sub]. *)
Fixpoint remove_all (sub : str) (skip : nat) (s : str) : str :=
  match s with
  | [] => []
  | c :: s' =>
      match skip with
      | S k => remove_all sub k s'
      | O =>
          if startswith sub s
          then remove_all sub (List.length sub - 1) s'
          else c :: remove_all sub 0 s'
      end
  end.

(** [s.replace('\n', ' ')] *)
Definition flatten_newlines (s : str) : str :=
  map (fun c => if Ascii.eqb c nl then sp else c) s.

(** [s.rsplit(' ', 1)[0]] : what precedes the last space, or all of [s]. *)
Fixpoint after_first_space (r : str) : option str :=
  match r with
  | [] => None
  | c :: r' => if Ascii.eqb c sp then Some r' else after_first_space r'
  end.

Definition rsplit1_head (s : str) : str :=
  match after_first_space (rev s) with
  | Some r => rev r
  | None => s
  end.

(** [re.findall(r'[^.!?]*[.!?]', s)] : the pieces ending at each terminator;
    a tail without terminator is dropped. *)
Fixpoint findall_sentences_aux (cur : str) (s : str) : list str :=
  match s with
  | [] => []
  | c :: s' =>
      if is_term c
      then rev (c :: cur) :: findall_sentences_aux [] s'
      else findall_sentences_aux (c :: cur) s'
  end.

Definition findall_sentences (s : str) : list str := findall_sentences_aux [] s.

(** [re.search(r"[a-zA-Z]{3,}", s)] *)
Fixpoint has_word3 (s : str) : bool :=
  match s with
  | a :: ((b :: c :: _) as s') =>
      (is_letter a && is_letter b && is_letter c) || has_word3 s'
  | _ => false
  end.

(** [str(n)] for an integer. *)
Definition of_Z (n : Z) : str := lit (NilZero.string_of_int (Z.to_int n)).

End Str.

Import Str.

(** ** Regular expressions

    The patterns of the source use character classes, sequence, alternation
    and bounded or unbounded repetition; for those, Python's backtracking
    search finds a match exactly when the string is in the language, which
    is decided here with derivatives. *)

Module Re.

Inductive re : Type :=
| Emp : re
| Eps : re
| Cls : (ascii -> bool) -> re
| Seq : re -> re -> re
| Alt : re -> re -> re
| Star : re -> re
| Rep : nat -> nat -> re -> re.

Definition Plus (r : re) : re := Seq r (Star r).

Fixpoint nullable (r : re) : bool :=
  match r with
  | Emp => false
  | Eps => true
  | Cls _ => false
  | Seq a b => nullable a && nullable b
  | Alt a b => nullable a || nullable b
  | Star _ => true
  | Rep lo _ a => Nat.eqb lo 0 || nullable a
  end.

Fixpoint deriv (c : ascii) (r : re) : re :=
  match r with
  | Emp => Emp
  | Eps => Emp
  | Cls p => if p c then Eps else Emp
  | Seq a b =>
      if nullable a
      then Alt (Seq (deriv c a) b) (deriv c b)
      else Seq (deriv c a) b
  | Alt a b => Alt (deriv c a) (deriv c b)
  | Star a => Seq (deriv c a) (Star a)
  | Rep lo hi a =>
      match hi with
      | O => Emp
      | S hi' => Seq (deriv c a) (Rep (pred lo) hi' a)
      end
  end.

(** [pattern.fullmatch(s)] for a pattern without anchors. *)
Fixpoint fullmatch (r : re) (s : str) : bool :=
  match s with
  | [] => nullable r
  | c :: s' => fullmatch (deriv c r) s'
  end.

(** [re.match] of [^(?:r)$] : the whole string, or the string up to one final
    newline. *)
Definition match_anchored (r : re) (s : str) : bool :=
  fullmatch r s ||
  match rev s with
  | c :: t => Ascii.eqb c nl && fullmatch r (rev t)
  | [] => false
  end.

End Re.

Import Re.

(** ** The section builder ([chunk_sections.py]) *)

Record page : Type := mkPage {
  pg_document : str;
  pg_page_number : Z;
  pg_content : str
}.

Record section : Type := mkSection {
  title : str;
  content : str;
  page_number : Z;
  document : str
}.

(** The section being accumulated on a page. *)
Record current : Type := mkCurrent {
  cur_title : str;
  cur_blocks : list str;
  cur_page_number : Z;
  cur_document : str
}.

(** [[A-Za-z0-9\s,&'\(\)\/_-]] *)
Definition heading_char (c : ascii) : bool :=
  is_letter c || is_digit c || is_space c ||
  is_char 44 c || is_char 38 c || is_char 39 c || is_char 40 c ||
  is_char 41 c || is_char 47 c || is_char 95 c || is_char 45 c.

(** The three alternatives of [STRICT_HEADING_REGEX]. *)
Definition heading_title_case : re :=
  Seq (Cls is_AZ) (Rep 4 40 (Cls heading_char)).

Definition heading_all_caps : re :=
  Seq (Cls is_AZ) (Rep 4 40 (Cls (fun c => is_AZ c || is_space c))).

Definition heading_numbered : re :=
  Seq (Plus (Cls is_digit))
   (Seq (Star (Seq (Cls (is_char 46)) (Plus (Cls is_digit))))
    (Seq (Plus (Cls is_space))
     (Seq (Cls is_AZ) (Rep 4 40 (Cls heading_char))))).

(** [STRICT_HEADING_REGEX.fullmatch(line)]: one of the alternatives spans the
    line, and the negative lookbehind at its end sees no ['.'], ['?'], ['!']. *)
Definition STRICT_HEADING_REGEX (line : str) : bool :=
  fullmatch (Alt heading_title_case (Alt heading_all_caps heading_numbered)) line
  && negb (endswith_term line).

Definition MIN_NEW_SECTION_CONTENT_LENGTH : nat := 200.
Definition MIN_FINAL_SECTION_LENGTH : nat := 80.

Definition nonempty (s : str) : bool :=
  match s with [] => false | _ => true end.

(** [[block.strip() for block in content.split('\n\n') if block.strip()]] *)
Definition content_blocks (content : str) : list str :=
  map strip (filter (fun b => nonempty (strip b)) (split [nl; nl] content)).

(** [block.split('\n')[0].strip()] *)
Definition first_line_of_block (block : str) : str :=
  strip (hd [] (split [nl] block)).

Definition is_potential_title (block : str) : bool :=
  let line := first_line_of_block block in
  STRICT_HEADING_REGEX line && negb (10 <? word_count line).

(** [" ".join(current_section["content_blocks"]).strip()] *)
Definition combined_content (cur : current) : str :=
  strip (join [sp] (cur_blocks cur)).

Definition finalize (cur : current) : section :=
  mkSection (cur_title cur) (combined_content cur)
            (cur_page_number cur) (cur_document cur).

Definition fresh_current (pg : page) : current :=
  mkCurrent [] [] (pg_page_number pg) (pg_document pg).

Definition append_block (cur : current) (block : str) : current :=
  mkCurrent (cur_title cur) (cur_blocks cur ++ [block])
            (cur_page_number cur) (cur_document cur).

(** One iteration of the loop over the blocks of a page. *)
Definition process_block (pg : page) (st : list section * current) (block : str)
  : list section * current :=
  let (sections, cur) := st in
  if is_potential_title block then
    if MIN_NEW_SECTION_CONTENT_LENGTH <=? List.length (combined_content cur) then
      (sections ++ [finalize cur],
       mkCurrent (first_line_of_block block) [block]
                 (pg_page_number pg) (pg_document pg))
    else if negb (nonempty (cur_title cur)) &&
            match cur_blocks cur with [] => true | _ => false end then
      (sections,
       mkCurrent (first_line_of_block block) (cur_blocks cur ++ [block])
                 (cur_page_number cur) (cur_document cur))
    else (sections, append_block cur block)
  else (sections, append_block cur block).

(** [sections[-1]["content"] += extra] *)
Fixpoint extend_last (sections : list section) (extra : str) : list section :=
  match sections with
  | [] => []
  | [s] => [mkSection (title s) (content s ++ extra) (page_number s) (document s)]
  | s :: rest => s :: extend_last rest extra
  end.

Definition last_content_length (sections : list section) : nat :=
  match rev sections with
  | [] => 0
  | s :: _ => List.length (content s)
  end.

(** What happens to the section still open when the blocks of a page are
    exhausted. *)
Definition end_of_page (st : list section * current) : list section :=
  let (sections, cur) := st in
  let final_section_content := combined_content cur in
  if nonempty final_section_content then
    if (List.length final_section_content <? MIN_FINAL_SECTION_LENGTH)
       && negb (match sections with [] => true | _ => false end) then
      if last_content_length sections <? 1000 then
        extend_last sections ([nl; nl] ++ final_section_content)
      else sections ++ [finalize cur]
    else
      if (MIN_FINAL_SECTION_LENGTH <=? List.length final_section_content)
         || match sections with [] => true | _ => false end
      then sections ++ [finalize cur]
      else sections
  else sections.

Definition process_page (sections : list section) (pg : page) : list section :=
  end_of_page
    (fold_left (process_block pg) (content_blocks (pg_content pg))
               (sections, fresh_current pg)).

Definition split_into_sections (pages : list page) : list section :=
  fold_left process_page pages [].

(** ** Theme classification ([classify] in [rank_sections.py]) *)

Inductive theme : Type :=
| introduction_overview
| key_concepts_definitions
| methods_procedures_steps
| results_findings_data
| recommendations_solutions
| examples_applications
| conclusion_summary
| contact_information
| appendix_references
| travel_cities
| travel_activities
| travel_food
| travel_accommodation
| travel_tips_practical
| supplemental_info
| other_general.

Scheme Equality for theme.

(** The dictionary, in insertion order (the order [items()] iterates in). *)
Definition GENERAL_CATEGORIES_KEYWORDS : list (theme * list str) :=
  [ (introduction_overview,
     map lit ["introduction"; "overview"; "abstract"; "summary"; "purpose";
              "scope"; "background"; "context"]%string);
    (key_concepts_definitions,
     map lit ["define"; "concept"; "definition"; "key terms"; "principles";
              "fundamentals"]%string);
    (methods_procedures_steps,
     map lit ["how to"; "method"; "steps"; "procedure"; "process"; "approach";
              "guidelines"; "instructions"; "guide"; "implementation"]%string);
    (results_findings_data,
     map lit ["results"; "findings"; "data"; "analysis"; "outcome";
              "statistics"; "performance"]%string);
    (recommendations_solutions,
     map lit ["recommendation"; "solution"; "advice"; "suggestion";
              "best practices"; "tips"; "strategy"; "plan"; "roadmap"]%string);
    (examples_applications,
     map lit ["example"; "case study"; "application"; "use case"; "scenario";
              "demonstration"]%string);
    (conclusion_summary,
     map lit ["conclusion"; "summary"; "final thoughts"; "in brief";
              "key takeaways"; "outlook"]%string);
    (contact_information,
     map lit ["contact"; "address"; "phone"; "email"; "website";
              "support"]%string);
    (appendix_references,
     map lit ["appendix"; "references"; "bibliography"; "glossary";
              "index"]%string) ].

Fixpoint first_category (table : list (theme * list str)) (text : str)
  : option theme :=
  match table with
  | [] => None
  | (category, keywords) :: rest =>
      if existsb (fun keyword => contains keyword text) keywords
      then Some category
      else first_category rest text
  end.

Definition any_in (keywords : list string) (text : str) : bool :=
  existsb (fun k => contains (lit k) text) keywords.

(** ["travel planner" in persona.lower()] *)
Definition is_travel_planner (persona : str) : bool :=
  contains (lit "travel planner") (lower persona).

Definition classify (persona : str) (s : section) : theme :=
  let title_and_content := lower (title s ++ [sp] ++ content s) in
  match first_category GENERAL_CATEGORIES_KEYWORDS title_and_content with
  | Some category => category
  | None =>
      if is_travel_planner persona then
        if any_in ["city"; "destination"; "town"; "regions"]%string
                  title_and_content then travel_cities
        else if any_in ["activity"; "entertainment"; "nightlife"; "attraction";
                        "excursion"]%string title_and_content
        then travel_activities
        else if any_in ["cuisine"; "food"; "restaurant"; "dining"]%string
                       title_and_content then travel_food
        else if any_in ["hotel"; "accommodation"; "stay"]%string
                       title_and_content then travel_accommodation
        else if any_in ["tip"; "packing"; "safety"; "transport"]%string
                       title_and_content then travel_tips_practical
        else other_general
      else other_general
  end.

(** ** Priority order of the themes *)

Definition DEFAULT_STRICT_PRIORITY_THEMES : list theme :=
  [ methods_procedures_steps; recommendations_solutions;
    results_findings_data; key_concepts_definitions; examples_applications;
    introduction_overview; conclusion_summary; travel_cities;
    travel_activities; travel_food; travel_accommodation;
    travel_tips_practical; supplemental_info; other_general ].

Definition theme_in (t : theme) (l : list theme) : bool :=
  existsb (theme_beq t) l.

(** [l.remove(t)] : the first occurrence goes. *)
Fixpoint theme_remove (t : theme) (l : list theme) : list theme :=
  match l with
  | [] => []
  | x :: l' => if theme_beq x t then l' else x :: theme_remove t l'
  end.

(** [l.index(t)] for a [t] that occurs. *)
Fixpoint theme_index (t : theme) (l : list theme) : Z :=
  match l with
  | [] => 0
  | x :: l' => if theme_beq x t then 0 else 1 + theme_index t l'
  end.

(** [l.insert(i, t)] for [0 <= i]. *)
Definition theme_insert (i : Z) (t : theme) (l : list theme) : list theme :=
  firstn (Z.to_nat i) l ++ t :: skipn (Z.to_nat i) l.

Definition current_priority_themes (persona : str) : list theme :=
  let themes := DEFAULT_STRICT_PRIORITY_THEMES in
  if is_travel_planner persona then
    let travel_priorities :=
      [travel_cities; travel_activities; travel_food; travel_accommodation] in
    let themes :=
      fold_left
        (fun l t => if theme_in t l then theme_insert 0 t (theme_remove t l)
                    else l)
        (rev travel_priorities) themes in
    if theme_in travel_tips_practical themes then
      let themes := theme_remove travel_tips_practical themes in
      let idx_after_core :=
        fold_left
          (fun idx core_theme =>
             if theme_in core_theme themes
             then Z.max idx (theme_index core_theme themes)
             else idx)
          [travel_accommodation; travel_food; travel_activities; travel_cities]
          (-1)%Z in
      theme_insert (idx_after_core + 1) travel_tips_practical themes
    else themes
  else themes.

(** ** The diversity selector (passes 1 and 2 and the final sort) *)

Definition candidate : Type := (section * Q)%type.

(** [(document, page_number, hash(content))] *)
Definition identifier : Type := (str * Z * Z)%type.

Definition identifier_eqb (i j : identifier) : bool :=
  let '(d1, p1, h1) := i in
  let '(d2, p2, h2) := j in
  str_eqb d1 d2 && (p1 =? p2)%Z && (h1 =? h2)%Z.

(** Membership in the set [chosen_section_identifiers], kept as a list. *)
Definition id_mem (i : identifier) (ids : list identifier) : bool :=
  existsb (identifier_eqb i) ids.

Definition Qlt_bool (x y : Q) : bool := negb (Qle_bool y x).

(** [sorted(l, key=lambda x: -x[1])] : stable, so an entry stays behind the
    entries of equal score that preceded it. *)
Fixpoint insert_by_score (x : candidate) (l : list candidate) : list candidate :=
  match l with
  | [] => [x]
  | y :: l' =>
      if Qlt_bool (snd x) (snd y) then y :: insert_by_score x l'
      else x :: l
  end.

Definition sorted_by_score (l : list candidate) : list candidate :=
  fold_right insert_by_score [] l.

Section Selector.

(** Python's [hash] on strings. *)
Variable hash : str -> Z.

Variable persona : str.
Variable max_sections_to_extract : Z.

Definition sec_identifier_of (s : section) : identifier :=
  (document s, page_number s, hash (content s)).

(** State of the scan over [results] for one theme: [best_sec_for_theme],
    [best_score_for_theme], and the variable [sec_identifier], which is bound
    by the loop body and still holds its last value after the loop. *)
Record scan_state : Type := mkScan {
  best_sec_for_theme : option candidate;
  best_score_for_theme : Q;
  sec_identifier : option identifier
}.

Definition scan_step (ids : list identifier) (theme_priority : theme)
           (st : scan_state) (r : candidate) : scan_state :=
  let (sec_data, score) := r in
  let sid := sec_identifier_of sec_data in
  if negb (id_mem sid ids) && theme_beq (classify persona sec_data) theme_priority
  then
    if match best_sec_for_theme st with
       | None => true
       | Some best =>
           Qlt_bool (best_score_for_theme st) score ||
           (Qeq_bool score (best_score_for_theme st) &&
            negb (str_eqb (document (fst best)) (document sec_data)))
       end
    then mkScan (Some (sec_data, score)) score (Some sid)
    else mkScan (best_sec_for_theme st) (best_score_for_theme st) (Some sid)
  else mkScan (best_sec_for_theme st) (best_score_for_theme st) (Some sid).

Definition scan (results : list candidate) (ids : list identifier)
           (theme_priority : theme) (sid0 : option identifier) : scan_state :=
  fold_left (scan_step ids theme_priority) results (mkScan None (-1)%Q sid0).

(** [chosen_section_identifiers.add(sec_identifier)] with the value the
    variable holds at that point. *)
Definition add_sec_identifier (sid : option identifier) (ids : list identifier)
  : list identifier :=
  match sid with
  | Some i => i :: ids
  | None => ids
  end.

Definition at_capacity (chosen : list candidate) : bool :=
  (max_sections_to_extract <=? Z.of_nat (List.length chosen))%Z.

(** Pass 1.  The state is [chosen], [chosen_section_identifiers] and the
    current value of [sec_identifier]. *)
Fixpoint pass1 (results : list candidate) (themes : list theme)
         (st : list candidate * list identifier * option identifier)
  : list candidate * list identifier * option identifier :=
  match themes with
  | [] => st
  | theme_priority :: rest =>
      let '(chosen, ids, sid) := st in
      if at_capacity chosen then st
      else
        let sc := scan results ids theme_priority sid in
        match best_sec_for_theme sc with
        | Some best =>
            pass1 results rest
                  (chosen ++ [best],
                   add_sec_identifier (sec_identifier sc) ids,
                   sec_identifier sc)
        | None => pass1 results rest (chosen, ids, sec_identifier sc)
        end
  end.

(** The loop of pass 2 over the pool sorted by score. *)
Fixpoint pass2_loop (sorted : list candidate)
         (st : list candidate * list identifier)
  : list candidate * list identifier :=
  match sorted with
  | [] => st
  | (sec_data, score) :: rest =>
      let (chosen, ids) := st in
      if at_capacity chosen then st
      else
        let sid := sec_identifier_of sec_data in
        if negb (id_mem sid ids)
        then pass2_loop rest (chosen ++ [(sec_data, score)], sid :: ids)
        else pass2_loop rest st
  end.

Definition pass2 (results : list candidate)
           (st : list candidate * list identifier)
  : list candidate * list identifier :=
  if negb (at_capacity (fst st))
  then pass2_loop (sorted_by_score results) st
  else st.

Definition chosen_after_pass1 (results : list candidate) : list candidate :=
  fst (fst (pass1 results (current_priority_themes persona) ([], [], None))).

(** [chosen] when pass 2 is over, before the final sort. *)
Definition chosen_after_pass2 (results : list candidate) : list candidate :=
  let '(chosen, ids, _) :=
    pass1 results (current_priority_themes persona) ([], [], None) in
  fst (pass2 results (chosen, ids)).

(** The selection in its final order. *)
Definition select (results : list candidate) : list candidate :=
  sorted_by_score (chosen_after_pass2 results).

End Selector.

(** ** The presenter: titles and refined excerpts *)

(** [[a-z0-9\s,&'\(\)\/_-]] *)
Definition title_tail_char (c : ascii) : bool :=
  is_az c || is_digit c || is_space c ||
  is_char 44 c || is_char 38 c || is_char 39 c || is_char 40 c ||
  is_char 41 c || is_char 47 c || is_char 95 c || is_char 45 c.

(** The capitalization pattern of [meaningful_title], without its anchors. *)
Definition title_pattern : re :=
  Alt (Seq (Cls is_AZ) (Star (Cls title_tail_char)))
      (Seq (Cls is_AZ) (Star (Cls (fun c => is_AZ c || is_space c)))).

(** The test on the section's own title field. *)
Definition title_field_ok (extracted_title : str) : bool :=
  (5 <? word_count extracted_title) && (word_count extracted_title <? 25)
  && match_anchored title_pattern extracted_title
  && negb (endswith_term extracted_title).

(** The loop that joins leading sentences of the content. *)
Fixpoint build_candidate (candidate_from_content : str) (sentences : list str)
  : str :=
  match sentences with
  | [] => candidate_from_content
  | s :: rest =>
      if (word_count (candidate_from_content ++ s) <? 25)
         && (List.length (candidate_from_content ++ s) <? 100)
      then build_candidate (candidate_from_content ++ strip s ++ [sp]) rest
      else candidate_from_content
  end.

Definition candidate_from_content (content_text : str) : str :=
  strip (build_candidate [] (findall_sentences content_text)).

Definition content_candidate_ok (c : str) : bool :=
  (5 <? word_count c) && (word_count c <? 25)
  && has_word3 c
  && match c with ch :: _ => isupper ch | [] => false end
  && endswith_term c.

Definition fallback_snippet (content_text : str) : str :=
  let snippet := strip (hd [] (split [nl; nl] content_text)) in
  if 100 <? List.length snippet
  then rsplit1_head (firstn 100 snippet) ++ lit "..."
  else snippet.

Definition snippet_is_bad (snippet : str) : bool :=
  negb (has_word3 snippet) || (word_count snippet <? 5) || endswith_term snippet.

Definition synthetic_title (s : section) : str :=
  lit "Information from Page " ++ of_Z (page_number s) ++ lit " of "
  ++ remove_all (lit ".pdf") 0 (document s).

(** What [meaningful_title] returns once the title field has been rejected. *)
Definition title_from_content (s : section) : str :=
  let content_text := strip (content s) in
  let c := candidate_from_content content_text in
  if content_candidate_ok c then c
  else
    let snippet := fallback_snippet content_text in
    if snippet_is_bad snippet then synthetic_title s else snippet.

Definition meaningful_title (s : section) : str :=
  let extracted_title := strip (title s) in
  if title_field_ok extracted_title then extracted_title
  else title_from_content s.

Definition target_len : nat := 220.

(** The inner loop over the sentences of a paragraph that does not fit. *)
Fixpoint pack_sentences (current_len : nat) (temp_sentence_summary : str)
         (sentences : list str) : str :=
  match sentences with
  | [] => temp_sentence_summary
  | s :: rest =>
      if current_len + List.length temp_sentence_summary + List.length s
         <=? target_len
      then pack_sentences current_len
                          (temp_sentence_summary ++ strip s ++ [sp]) rest
      else temp_sentence_summary
  end.

(** The loop over the paragraphs; it ends at the first paragraph that does
    not fit as a whole. *)
Fixpoint pack_paragraphs (paragraphs : list str)
         (concise_text_parts : list str) (current_len : nat) : list str :=
  match paragraphs with
  | [] => concise_text_parts
  | para0 :: rest =>
      let para := strip para0 in
      if nonempty para then
        if (current_len + List.length para <=? target_len)
           || match concise_text_parts with [] => true | _ => false end
        then pack_paragraphs rest (concise_text_parts ++ [para])
                             (current_len + List.length para + 2)
        else
          let temp := pack_sentences current_len [] (findall_sentences para) in
          if nonempty temp then concise_text_parts ++ [strip temp]
          else if current_len <? target_len then
            let remaining_space := target_len - current_len in
            let snippet := strip (firstn remaining_space para) in
            if 3 <? word_count snippet
            then concise_text_parts ++ [snippet ++ lit "..."]
            else concise_text_parts
          else concise_text_parts
      else pack_paragraphs rest concise_text_parts current_len
  end.

(** The refined text of a chosen section. *)
Definition refine (s : section) : str :=
  let refined_text_content := strip (content s) in
  let paragraphs := split [nl; nl] refined_text_content in
  let parts := pack_paragraphs paragraphs [] 0 in
  let final_refined_text :=
    flatten_newlines (strip (join [nl; nl] parts)) in
  if negb (nonempty final_refined_text) && nonempty refined_text_content then
    let raw := strip (firstn target_len refined_text_content) in
    let raw :=
      if (target_len <? List.length refined_text_content)
         && negb (endswith_term raw)
      then raw ++ lit "..." else raw in
    flatten_newlines raw
  else if negb (nonempty final_refined_text) then lit "N/A"
  else final_refined_text.

(** ** [rank_sections] *)

Record extracted_entry : Type := mkExtracted {
  ex_document : str;
  ex_section_title : str;
  ex_importance_rank : Z;
  ex_page_number : Z
}.

Record detailed_entry : Type := mkDetailed {
  dt_document : str;
  dt_refined_text : str;
  dt_page_number : Z
}.

(** [enumerate(l, start)] *)
Fixpoint enumerate {A : Type} (start : Z) (l : list A) : list (Z * A) :=
  match l with
  | [] => []
  | x :: l' => (start, x) :: enumerate (start + 1) l'
  end.

Definition present (chosen : list candidate)
  : list extracted_entry * list detailed_entry :=
  fold_left
    (fun (acc : list extracted_entry * list detailed_entry)
         (item : Z * candidate) =>
       let '(rank, (sec, _)) := item in
       (fst acc ++ [mkExtracted (document sec) (meaningful_title sec) rank
                                (page_number sec)],
        snd acc ++ [mkDetailed (document sec) (refine sec) (page_number sec)]))
    (enumerate 1 chosen) ([], []).

Definition make_query (persona job : str) : str :=
  lit "As a " ++ strip persona ++ lit ", I need to " ++ strip job ++ lit ". "
  ++ lit "Provide concrete, actionable information and key recommendations. "
  ++ lit "Focus on essential details, steps, or insights relevant to completing this task.".

Definition filtered_sections (sections : list section) : list section :=
  filter (fun s => 150 <? List.length (strip (content s))) sections.

Section Ranking.

Variable hash : str -> Z.

(** The vector database: [search filtered query top_k] stands for
    [add_chunks(filtered)] followed by [search(query, top_k)]. *)
Variable search : list section -> str -> nat -> list candidate.

Definition rank_sections (sections : list section) (persona job : str)
           (max_sections_to_extract : Z)
  : list extracted_entry * list detailed_entry :=
  let query := make_query persona job in
  let filtered := filtered_sections sections in
  match filtered with
  | [] => ([], [])
  | _ =>
      let results := search filtered query 100 in
      present (select hash persona max_sections_to_extract results)
  end.

End Ranking.

(** ** Concrete inputs used below *)

Definition chars (n : nat) (c : string) : str := List.concat (repeat (lit c) n).

(** A section whose stripped content has exactly 150 characters, and one with
    151. *)
Definition section_150 : section :=
  mkSection [] (chars 150 "a") 1 (lit "doc.pdf").

Definition section_151 : section :=
  mkSection [] (chars 151 "a") 1 (lit "doc.pdf").

Definition no_search : list section -> str -> nat -> list candidate :=
  fun _ _ _ => [].

(** An open section holding exactly 199, and exactly 200, characters. *)
Definition current_199 : current :=
  mkCurrent (lit "First Heading") [chars 99 "a"; chars 99 "b"] 1 (lit "doc.pdf").

Definition current_200 : current :=
  mkCurrent (lit "First Heading") [chars 100 "a"; chars 99 "b"] 1 (lit "doc.pdf").

Definition heading_block : str :=
  lit "Second Heading" ++ [nl] ++ lit "text under the second heading".

Definition page_one : page := mkPage (lit "doc.pdf") 1 [].

(** A page whose only block has exactly 1000 characters, followed by a page
    that holds a short remainder. *)
Definition page_1000 : page := mkPage (lit "doc.pdf") 1 (chars 1000 "a").
Definition page_999 : page := mkPage (lit "doc.pdf") 1 (chars 999 "a").
Definition page_tail : page := mkPage (lit "doc.pdf") 2 (lit "short tail").

(** Two one-block pages of two documents. *)
Definition page_first : page := mkPage (lit "a.pdf") 1 (lit "one").
Definition page_second : page := mkPage (lit "b.pdf") 1 (lit "two").

(** Three sections with more than 150 characters each: two on methods, one
    that matches no keyword. *)
Definition sec_methods_a : section :=
  mkSection [] (chars 10 "steps to follow ") 1 (lit "a.pdf").

Definition sec_other_b : section :=
  mkSection [] (chars 40 "zzz ") 1 (lit "b.pdf").

Definition sec_methods_c : section :=
  mkSection [] (chars 15 "method two ") 1 (lit "c.pdf").

Definition analyst : str := lit "analyst".

(** The three sections with the scores 0.9, 0.8 and 0.7. *)
Definition cand_a : candidate := (sec_methods_a, (9 # 10)%Q).
Definition cand_b : candidate := (sec_other_b, (8 # 10)%Q).
Definition cand_c : candidate := (sec_methods_c, (7 # 10)%Q).

Definition pool_two : list candidate := [cand_a; cand_b].

Definition pool_three : list candidate := [cand_a; cand_b; cand_c].

Definition search_two : list section -> str -> nat -> list candidate :=
  fun _ _ _ => pool_two.

Definition section_introduction : section :=
  mkSection (lit "INTRODUCTION") (lit "No sentence here") 4 (lit "guide.pdf").

(** A page that opens with a heading in Title Case, and the section that
    [split_into_sections] makes of it. *)
Definition guide_heading : str := lit "Guide To The Best Local Restaurants".

Definition guide_paragraph : str :=
  lit "Try the seafood by the harbour. Book a table early in summer, since the small places fill up fast and close before ten in the evening.".

Definition page_guide : page :=
  mkPage (lit "guide.pdf") 3 (guide_heading ++ [nl; nl] ++ guide_paragraph).

Definition section_guide : section :=
  mkSection guide_heading (guide_heading ++ [sp] ++ guide_paragraph)
            3 (lit "guide.pdf").

(** ** Properties and invariants used in the statements *)

(** A word in Title Case: a capital letter, then lowercase letters only. *)
Definition title_case_word (w : str) : bool :=
  match w with
  | c :: r => is_AZ c && forallb is_az r
  | [] => false
  end.

(** A title in Title Case: every word is, and some word has more than one
    letter (so the title is not made of single capitals). *)
Definition title_case (t : str) : bool :=
  forallb title_case_word (split_ws t)
  && existsb (fun w => 1 <? List.length w) (split_ws t).

(** A non-empty text with no whitespace at either end. *)
Definition trimmed (s : str) : Prop :=
  exists c d m, (s = [c] /\ d = c \/ s = c :: m ++ [d])
                /\ is_space c = false /\ is_space d = false.

(** [r] is a run of consecutive blocks of [bs]. *)
Definition is_run (r bs : list str) : Prop :=
  exists pre post, bs = pre ++ r ++ post.



(** [c] is the text of one or more consecutive blocks of page [p], joined
    with single spaces. *)
Definition blocks_of (p : page) (c : str) : Prop :=
  exists r, r <> [] /\ is_run r (content_blocks (pg_content p))
            /\ c = join [sp] r.



(** The value of [sec_identifier] once the pool has been scanned: the
    identifier of the last entry, or the previous value for an empty pool. *)
Definition last_identifier (hash : str -> Z) (results : list candidate)
           (sid : option identifier) : option identifier :=
  fold_left (fun _ r => Some (sec_identifier_of hash (fst r))) results sid.

(** An entry that the scan for theme [t] may take as the best one. *)
Definition eligible (hash : str -> Z) (persona : str) (ids : list identifier)
           (t : theme) (r : candidate) : bool :=
  negb (id_mem (sec_identifier_of hash (fst r)) ids)
  && theme_beq (classify persona (fst r)) t.

Definition identifiers (hash : str -> Z) (l : list candidate) : list identifier :=
  map (fun c => sec_identifier_of hash (fst c)) l.

(** The list [chosen] that [rank_sections] presents: the selection in its
    final order, or nothing when the filter leaves no section. *)
Definition final_chosen (hash : str -> Z)
           (search : list section -> str -> nat -> list candidate)
           (sections : list section) (persona job : str) (max_count : Z)
  : list candidate :=
  match filtered_sections sections with
  | [] => []
  | _ => select hash persona max_count
                (search (filtered_sections sections) (make_query persona job) 100)
  end.

Definition extracted_place (e : extracted_entry) : str * Z :=
  (ex_document e, ex_page_number e).

Definition detailed_place (d : detailed_entry) : str * Z :=
  (dt_document d, dt_page_number d).

(** The two entries that [present] appends for one numbered item. *)
Definition extracted_of (item : Z * candidate) : extracted_entry :=
  mkExtracted (document (fst (snd item))) (meaningful_title (fst (snd item)))
              (fst item) (page_number (fst (snd item))).

Definition detailed_of (item : Z * candidate) : detailed_entry :=
  mkDetailed (document (fst (snd item))) (refine (fst (snd item)))
             (page_number (fst (snd item))).

Definition score_ge (x y : candidate) : Prop := (snd y <= snd x)%Q.

Definition place (s : section) : str * Z := (document s, page_number s).

(** ** Further properties and invariants *)

(** The document and page number of a page. *)
Definition pg_place (p : page) : str * Z := (pg_document p, pg_page_number p).

(** A title is empty or a heading line of at most ten words. *)
Definition heading_title (t : str) : Prop :=
  t = [] \/ (STRICT_HEADING_REGEX t = true /\ word_count t <= 10).

(** The places of [k] sections of each page, page after page. *)
Fixpoint places_in_page_order (pages : list page) (counts : list nat)
  : list (str * Z) :=
  match pages, counts with
  | p :: pages', k :: counts' =>
      repeat (pg_place p) k ++ places_in_page_order pages' counts'
  | _, _ => []
  end.

(** The language of a pattern. *)
Inductive matches : re -> str -> Prop :=
| MEps : matches Eps []
| MCls (p : ascii -> bool) (c : ascii) : p c = true -> matches (Cls p) [c]
| MSeq (a b : re) (s t : str) :
    matches a s -> matches b t -> matches (Seq a b) (s ++ t)
| MAltL (a b : re) (s : str) : matches a s -> matches (Alt a b) s
| MAltR (a b : re) (s : str) : matches b s -> matches (Alt a b) s
| MStar0 (a : re) : matches (Star a) []
| MStarS (a : re) (s t : str) :
    matches a s -> matches (Star a) t -> matches (Star a) (s ++ t)
| MRep0 (hi : nat) (a : re) : matches (Rep 0 hi a) []
| MRepS (lo hi : nat) (a : re) (s t : str) :
    matches a s -> matches (Rep (pred lo) hi a) t ->
    matches (Rep lo (S hi) a) (s ++ t).

(** Patterns whose bounded repetitions repeat something non-empty, as all
    patterns of the source do. *)
Fixpoint plain (r : re) : bool :=
  match r with
  | Emp | Eps | Cls _ => true
  | Seq a b | Alt a b => plain a && plain b
  | Star a => plain a
  | Rep _ _ a => plain a && negb (nullable a)
  end.

(** The three alternatives of [STRICT_HEADING_REGEX] together. *)
Definition heading_body : re :=
  Alt heading_title_case (Alt heading_all_caps heading_numbered).

(** A character that may occur in a heading line. *)
Definition heading_line_char (c : ascii) : bool :=
  heading_char c || is_char 46 c.

(** The entries of [l] whose flag is set, in order. *)
Fixpoint select_by_flags {A : Type} (l : list A) (flags : list bool) : list A :=
  match l, flags with
  | x :: l', true :: flags' => x :: select_by_flags l' flags'
  | _ :: l', false :: flags' => select_by_flags l' flags'
  | _, _ => []
  end.

(** The nine categories of the keyword table. *)
Definition general_themes : list theme :=
  [introduction_overview; key_concepts_definitions; methods_procedures_steps;
   results_findings_data; recommendations_solutions; examples_applications;
   conclusion_summary; contact_information; appendix_references].

Definition travel_themes : list theme :=
  [travel_cities; travel_activities; travel_food; travel_accommodation;
   travel_tips_practical].

(** The entries of score [q]. *)
Definition with_score (q : Q) (l : list candidate) : list candidate :=
  filter (fun c => Qeq_bool (snd c) q) l.

(** What the scan for theme [t] knows after the part [seen] of the pool. *)
Definition scan_inv (hash : str -> Z) (persona : str) (ids : list identifier)
           (t : theme) (seen : list candidate) (st : scan_state) : Prop :=
  match best_sec_for_theme st with
  | Some b =>
      In b seen /\ eligible hash persona ids t b = true
      /\ best_score_for_theme st = snd b
      /\ Forall (fun r => eligible hash persona ids t r = true ->
                          (snd r <= snd b)%Q) seen
  | None => forallb (fun r => negb (eligible hash persona ids t r)) seen = true
  end.

(** No theme occurs twice in [l]. *)
Fixpoint distinct_themes (l : list theme) : bool :=
  match l with
  | [] => true
  | x :: l' => negb (theme_in x l') && distinct_themes l'
  end.


(** ** The vector database ([vector_database.py])

    The sentence encoder and the FAISS index are external.  What is kept of
    the class is its list of chunks; the index search is represented by what
    it returns, the scores and indices of [self.index.search], zipped. *)

Record VectorDatabase : Type := mkDB {
  db_chunks : list section
}.

(** [VectorDatabase()] *)
Definition new_database : VectorDatabase := mkDB [].

(** The text that [add_chunks] hands to the encoder for one chunk. *)
Definition embedding_text (chunk : section) : str :=
  if nonempty (title chunk)
  then title chunk ++ lit ". " ++ content chunk
  else content chunk.

(** [add_chunks]: the chunks are appended to those already stored. *)
Definition add_chunks (db : VectorDatabase) (chunks : list section)
  : VectorDatabase :=
  mkDB (db_chunks db ++ chunks).

(** [l[i]] for a Python list: a negative index counts from the end; an index
    out of range raises [IndexError], here [None]. *)
Definition py_getitem {A : Type} (l : list A) (i : Z) : option A :=
  if (0 <=? i)%Z then nth_error l (Z.to_nat i)
  else if (- Z.of_nat (List.length l) <=? i)%Z
       then nth_error l (Z.to_nat (Z.of_nat (List.length l) + i))
       else None.

(** The loop of [search] over the zipped scores and indices; [None] when
    the indexing raises. *)
Fixpoint db_search (db : VectorDatabase) (raw : list (Q * Z))
  : option (list candidate) :=
  match raw with
  | [] => Some []
  | (score, idx) :: rest =>
      if (idx <? Z.of_nat (List.length (db_chunks db)))%Z then
        match py_getitem (db_chunks db) idx with
        | Some chunk =>
            match db_search db rest with
            | Some results => Some ((chunk, score) :: results)
            | None => None
            end
        | None => None
        end
      else db_search db rest
  end.

(** The raw entries whose index passes the test [idx < len(self.chunks)]. *)
Definition passing (db : VectorDatabase) (raw : list (Q * Z)) : list (Q * Z) :=
  filter (fun r => (snd r <? Z.of_nat (List.length (db_chunks db)))%Z) raw.

(** ** The pipeline ([main.py])

    Reading the PDF files and writing the JSON file are external;
    [run_pipeline] is given the extracted pages and the time stamp and
    returns the report that would be written, or [None] when it stops
    because nothing was extracted. *)

(** [s < t] on Python strings: lexicographic on the code points. *)
Fixpoint str_ltb (s t : str) : bool :=
  match s, t with
  | [], [] => false
  | [], _ :: _ => true
  | _ :: _, [] => false
  | c :: s', d :: t' =>
      (code c <? code d)%N || ((code c =? code d)%N && str_ltb s' t')
  end.

Fixpoint insert_unique (x : str) (l : list str) : list str :=
  match l with
  | [] => [x]
  | y :: l' =>
      if str_ltb x y then x :: l
      else if str_eqb x y then l
      else y :: insert_unique x l'
  end.

(** [sorted(list(set(l)))] : the distinct strings of [l] in ascending
    order. *)
Definition sorted_set (l : list str) : list str :=
  fold_right insert_unique [] l.

Definition main_persona : str := lit "Travel Planner".

Definition main_job : str :=
  lit "Plan a trip of 4 days for a group of 10 college friends.".

Definition desired_output_sections : Z := 10.

Record report : Type := mkReport {
  input_documents : list str;
  rp_persona : str;
  job_to_be_done : str;
  processing_timestamp : str;
  extracted_sections : list extracted_entry;
  subsection_analysis : list detailed_entry
}.

Definition run_pipeline (hash : str -> Z)
           (search : list section -> str -> nat -> list candidate)
           (timestamp : str) (pages : list page) : option report :=
  match pages with
  | [] => None
  | _ =>
      let input_docs_set := map pg_document pages in
      let sections := split_into_sections pages in
      let out := rank_sections hash search sections main_persona main_job
                               desired_output_sections in
      Some (mkReport (sorted_set input_docs_set) main_persona main_job
                     timestamp (fst out) (snd out))
  end.

Definition str_lt (s t : str) : Prop := str_ltb s t = true.

(** * Facts about the string operations *)

Example strip_ex : strip (lit "  ab c  ") = lit "ab c".
Proof. reflexivity. Qed.

Example split_ex :
  split [nl; nl] (lit "a" ++ [nl; nl; nl] ++ lit "b") = [lit "a"; nl :: lit "b"].
Proof. reflexivity. Qed.

Example split_ws_ex : split_ws (lit " ab  c d ") = [lit "ab"; lit "c"; lit "d"].
Proof. reflexivity. Qed.

Example findall_ex :
  findall_sentences (lit "Hi. You? rest") = [lit "Hi."; lit " You?"].
Proof. reflexivity. Qed.

Example rsplit_ex : rsplit1_head (lit "ab cd ef") = lit "ab cd".
Proof. reflexivity. Qed.

Example of_Z_ex : of_Z 12 = lit "12" /\ of_Z 0 = lit "0" /\ of_Z (-3) = lit "-3".
Proof. repeat split; reflexivity. Qed.

Example remove_ex : remove_all (lit ".pdf") 0 (lit "a.pdf.b.pdf") = lit "a.b".
Proof. reflexivity. Qed.

Example heading_ex :
  map (fun s => STRICT_HEADING_REGEX (lit s))
      ["Introduction"; "Intro"; "Abcd"; "1.2 Section Name"; "Hello world.";
       "hello world"; "HELLO WORLD"]%string
  = [true; true; false; true; false; false; true].
Proof. reflexivity. Qed.

Example title_pattern_ex :
  map (fun s => match_anchored title_pattern (lit s))
      ["Hello world this is"; "Hello World"; "HELLO WORLD"; "H."]%string
  = [true; false; true; false].
Proof. reflexivity. Qed.

Example travel_priority_ex :
  current_priority_themes (lit "Travel Planner")
  = [travel_cities; travel_activities; travel_food; travel_accommodation;
     travel_tips_practical; methods_procedures_steps;
     recommendations_solutions; results_findings_data;
     key_concepts_definitions; examples_applications; introduction_overview;
     conclusion_summary; supplemental_info; other_general].
Proof. reflexivity. Qed.

Example refine_short_paragraph_ex :
  refine (mkSection [] (chars 50 "x") 1 (lit "doc.pdf")) = chars 50 "x".
Proof. vm_compute. reflexivity. Qed.

Example refine_empty_ex :
  refine (mkSection [] [] 1 (lit "doc.pdf")) = lit "N/A".
Proof. reflexivity. Qed.

Lemma word_count_pos_nonempty (s : str) : 0 < word_count s -> s <> [].
Proof.
  intros H E. subst s. cbv in H. lia.
Qed.

Lemma has_word3_nonempty (s : str) : has_word3 s = true -> s <> [].
Proof.
  intros H E. subst s. discriminate H.
Qed.

Lemma synthetic_title_nonempty (s : section) : synthetic_title s <> [].
Proof.
  unfold synthetic_title. discriminate.
Qed.

(** * The presenter's titles *)

Lemma title_field_ok_spec (t : str) :
  title_field_ok t = true <->
  (5 < word_count t < 25 /\ match_anchored title_pattern t = true
   /\ endswith_term t = false).
Proof.
  unfold title_field_ok.
  rewrite !andb_true_iff, !Nat.ltb_lt, negb_true_iff. tauto.
Qed.

Lemma title_from_content_cases (s : section) :
  let text := strip (content s) in
  title_from_content s = candidate_from_content text
  \/ title_from_content s = fallback_snippet text
  \/ title_from_content s = synthetic_title s.
Proof.
  unfold title_from_content. cbv zeta.
  destruct (content_candidate_ok _); [now left|].
  destruct (snippet_is_bad _); [now right; right | now right; left].
Qed.

(** C10.  [meaningful_title] never returns the empty string: an accepted
    title or content candidate has more than five words, a returned snippet
    contains a run of three letters, and the synthetic label starts with
    fixed text. *)
Theorem C10_meaningful_title_nonempty (s : section) :
  meaningful_title s <> [].
Proof.
  unfold meaningful_title.
  destruct (title_field_ok _) eqn:Ht.
  - apply title_field_ok_spec in Ht. apply word_count_pos_nonempty. lia.
  - unfold title_from_content.
    destruct (content_candidate_ok _) eqn:Hc.
    + unfold content_candidate_ok in Hc.
      rewrite !andb_true_iff, Nat.ltb_lt in Hc.
      apply word_count_pos_nonempty. lia.
    + destruct (snippet_is_bad _) eqn:Hb.
      * apply synthetic_title_nonempty.
      * unfold snippet_is_bad in Hb.
        rewrite !orb_false_iff, negb_false_iff in Hb.
        apply has_word3_nonempty. tauto.
Qed.

(** * The length filter of [rank_sections] *)

Lemma filtered_sections_In (sections : list section) (s : section) :
  In s (filtered_sections sections) <->
  In s sections /\ 150 < List.length (strip (content s)).
Proof.
  unfold filtered_sections. rewrite filter_In, Nat.ltb_lt. tauto.
Qed.

(** C5, as stated, fails: a section whose stripped content has exactly 150
    characters is not shorter than 150, yet the filter drops it. *)
Lemma C5_exactly_150_dropped :
  List.length (strip (content section_150)) = 150
  /\ ~ In section_150 (filtered_sections [section_150])
  /\ filtered_sections [section_150] = [].
Proof.
  assert (E : filtered_sections [section_150] = []) by (vm_compute; reflexivity).
  split; [vm_compute; reflexivity|]. split; [|exact E].
  rewrite E. intros [].
Qed.

(** C5, amended.  A section is kept for the candidate pool exactly when its
    stripped content is longer than 150 characters (151 survive); when no
    section is kept, [rank_sections] returns two empty lists, whatever the
    index would answer. *)
Theorem C5_filter_strictly_longer
  (hash : str -> Z) (search : list section -> str -> nat -> list candidate)
  (sections : list section) (persona job : str) (max_count : Z) :
  (forall s, In s (filtered_sections sections) <->
             In s sections /\ 150 < List.length (strip (content s)))
  /\ In section_151 (filtered_sections [section_151])
  /\ (filtered_sections sections = [] ->
      rank_sections hash search sections persona job max_count = ([], [])).
Proof.
  split; [apply filtered_sections_In|]. split.
  - apply filtered_sections_In. split; [now left|]. vm_compute. lia.
  - intros E. unfold rank_sections. rewrite E. reflexivity.
Qed.

(** The amended C5 at a section of exactly 150 characters. *)
Lemma C5_filter_witness :
  filtered_sections [section_150] = []
  /\ rank_sections (fun _ => 0%Z) no_search [section_150] analyst analyst 10
     = ([], []).
Proof.
  assert (E : filtered_sections [section_150] = []) by (vm_compute; reflexivity).
  split; [exact E|].
  exact (proj2 (proj2 (C5_filter_strictly_longer
                         (fun _ => 0%Z) no_search [section_150] analyst analyst 10))
               E).
Defined.

(** * The blocks of a page

    Blocks are stripped and non-empty, so joining them with single spaces
    leaves nothing for the final [strip()] to remove. *)

Lemma is_run_incl (r bs : list str) : is_run r bs -> incl r bs.
Proof.
  intros (pre & post & ->) x Hx. apply in_or_app. right.
  apply in_or_app. now left.
Qed.

Lemma lstrip_app_last (l : str) (d : ascii) :
  is_space d = false -> exists u, lstrip (l ++ [d]) = u ++ [d].
Proof.
  intros Hd. induction l as [|c l IH].
  - exists []. cbn. now rewrite Hd.
  - cbn [app lstrip]. destruct (is_space c); [exact IH|].
    now exists (c :: l).
Qed.

Lemma lstrip_head (c : ascii) (l : str) :
  is_space c = false -> lstrip (c :: l) = c :: l.
Proof. intros H. cbn. now rewrite H. Qed.

Lemma strip_trimmed (s : str) : trimmed s -> strip s = s.
Proof.
  intros (c & d & m & [[-> _]| ->] & Hc & Hd); unfold strip, rstrip.
  - rewrite (lstrip_head _ _ Hc). cbn [rev app]. now rewrite (lstrip_head _ _ Hc).
  - rewrite (lstrip_head _ _ Hc).
    change (c :: m ++ [d]) with ((c :: m) ++ [d]).
    rewrite rev_app_distr. cbn [rev app].
    rewrite (lstrip_head _ _ Hd).
    change (d :: rev m ++ [c]) with ([d] ++ rev (c :: m)).
    rewrite rev_app_distr, rev_involutive. reflexivity.
Qed.

Lemma lstrip_nonspace_head (s : str) :
  lstrip s = [] \/ exists c l, lstrip s = c :: l /\ is_space c = false.
Proof.
  induction s as [|c s IH]; [now left|].
  cbn [lstrip]. destruct (is_space c) eqn:E; [exact IH|].
  right. now exists c, s.
Qed.

Lemma strip_nonempty_trimmed (s : str) : strip s <> [] -> trimmed (strip s).
Proof.
  unfold strip, rstrip. intros Hne.
  destruct (lstrip_nonspace_head s) as [E|(c & l & E & Hc)].
  - rewrite E in Hne. now cbn in Hne.
  - rewrite E in *. clear E.
    destruct (lstrip_nonspace_head (rev (c :: l))) as [E|(d & u & E & Hd)].
    + rewrite E in Hne. now cbn in Hne.
    + cbn [rev] in E.
      destruct (lstrip_app_last (rev l) c Hc) as (v & Ev).
      cbn [rev]. rewrite Ev in *.
      destruct v as [|d' v].
      * cbn in E. injection E as Ed _. subst d.
        exists c, c, []. split; [left; now split|now split].
      * cbn [app] in E. injection E as Ed _. subst d'.
        exists c, d, (rev v). split; [|now split].
        right. rewrite rev_app_distr. cbn [rev app]. reflexivity.
Qed.

Lemma content_blocks_trimmed (text : str) : Forall trimmed (content_blocks text).
Proof.
  unfold content_blocks. apply Forall_forall. intros b Hb.
  apply in_map_iff in Hb. destruct Hb as (b0 & <- & Hb0).
  apply filter_In in Hb0. destruct Hb0 as [_ Hne].
  apply strip_nonempty_trimmed. intros E. rewrite E in Hne. discriminate Hne.
Qed.

Lemma join_trimmed (bs : list str) :
  bs <> [] -> Forall trimmed bs -> trimmed (join [sp] bs).
Proof.
  intros Hne H. induction H as [|b bs Hb Hbs IH]; [congruence|].
  destruct bs as [|b' bs']; [exact Hb|].
  change (join [sp] (b :: b' :: bs')) with (b ++ [sp] ++ join [sp] (b' :: bs')).
  destruct (IH ltac:(discriminate)) as (c2 & d2 & m2 & E2 & Hc2 & Hd2).
  destruct Hb as (c1 & d1 & m1 & E1 & Hc1 & Hd1).
  exists c1, d2.
  destruct E1 as [[-> _] | ->], E2 as [[E2 ->]|E2]; rewrite E2.
  - exists [sp]. split; [right; reflexivity|now split].
  - exists (sp :: c2 :: m2). split; [right; reflexivity|now split].
  - exists (m1 ++ [d1; sp]). split; [|now split]. right.
    cbn [app]. now rewrite <- !app_assoc.
  - exists (m1 ++ d1 :: sp :: c2 :: m2). split; [|now split]. right.
    cbn [app]. rewrite <- !app_assoc. reflexivity.
Qed.

Lemma strip_join_blocks (bs : list str) :
  Forall trimmed bs -> strip (join [sp] bs) = join [sp] bs.
Proof.
  intros H. destruct bs as [|b bs]; [reflexivity|].
  apply strip_trimmed. apply join_trimmed; [discriminate|exact H].
Qed.

Lemma strip_join_run (text : str) (r : list str) :
  is_run r (content_blocks text) -> strip (join [sp] r) = join [sp] r.
Proof.
  intros Hrun. apply strip_join_blocks. apply Forall_forall. intros b Hb.
  pose proof (content_blocks_trimmed text) as H. rewrite Forall_forall in H.
  apply H. now apply (is_run_incl r).
Qed.

(** * The section builder: headings and the 200-character threshold *)

Lemma app_singleton_neq {A : Type} (l : list A) (x : A) : l <> l ++ [x].
Proof.
  intros E. apply (f_equal (@List.length A)) in E.
  rewrite length_app in E. simpl in E. lia.
Qed.

Lemma process_block_not_title (pg : page) (sections : list section)
      (cur : current) (block : str) :
  is_potential_title block = false ->
  process_block pg (sections, cur) block = (sections, append_block cur block).
Proof.
  intros H. unfold process_block. now rewrite H.
Qed.

Lemma process_block_keeps_sections (pg : page) (sections : list section)
      (cur : current) (block : str) :
  List.length (combined_content cur) < MIN_NEW_SECTION_CONTENT_LENGTH ->
  fst (process_block pg (sections, cur) block) = sections
  /\ cur_blocks (snd (process_block pg (sections, cur) block))
     = cur_blocks cur ++ [block].
Proof.
  intros H. apply Nat.leb_gt in H. unfold process_block. rewrite H.
  destruct (is_potential_title block); [|now split].
  destruct (_ && _); now split.
Qed.

(** C6.  On a qualifying heading candidate, the open section is finalized
    and a new one started exactly when the blocks accumulated so far, joined
    with single spaces, have at least 200 characters (the code strips the
    joined text, which changes nothing when the blocks are blocks of a
    page).  The finalized section has the title, page number and document of
    the open section and the joined blocks as its content, and is appended
    to the output; the new open section is titled with the candidate line,
    seeded with the whole block and belongs to the current page.  Below 200
    the output is left alone and the block is absorbed by the open section,
    which takes the candidate line as its title only when it has neither a
    title nor blocks.  So at 199 the open section keeps its title and gets
    the block; at 200 the new section starts. *)
Theorem C6_heading_threshold
  (pg : page) (sections : list section) (cur : current) (block : str)
  (Hhead : is_potential_title block = true) :
  let accumulated := join [sp] (cur_blocks cur) in
  let n := List.length (strip accumulated) in
  let finalized :=
    mkSection (cur_title cur) (strip accumulated)
              (cur_page_number cur) (cur_document cur) in
  let started :=
    mkCurrent (first_line_of_block block) [block]
              (pg_page_number pg) (pg_document pg) in
  let absorbed (new_title : str) :=
    mkCurrent new_title (cur_blocks cur ++ [block])
              (cur_page_number cur) (cur_document cur) in
  (forall text, is_run (cur_blocks cur) (content_blocks text) ->
                strip accumulated = accumulated)
  /\ (200 <= n <->
      process_block pg (sections, cur) block = (sections ++ [finalized], started))
  /\ (n < 200 <->
      process_block pg (sections, cur) block
      = (sections,
         absorbed (match cur_title cur, cur_blocks cur with
                   | [], [] => first_line_of_block block
                   | _, _ => cur_title cur
                   end)))
  /\ (n = 199 ->
      process_block pg (sections, cur) block = (sections, absorbed (cur_title cur)))
  /\ (n = 200 ->
      process_block pg (sections, cur) block = (sections ++ [finalized], started)).
Proof.
  intros accumulated n finalized started absorbed.
  assert (Hge : 200 <= n ->
                process_block pg (sections, cur) block
                = (sections ++ [finalized], started)).
  { intros H. apply Nat.leb_le in H. unfold process_block.
    rewrite Hhead. unfold combined_content, MIN_NEW_SECTION_CONTENT_LENGTH.
    fold accumulated. fold n. now rewrite H. }
  assert (Hlt : n < 200 ->
                process_block pg (sections, cur) block
                = (sections,
                   absorbed (match cur_title cur, cur_blocks cur with
                             | [], [] => first_line_of_block block
                             | _, _ => cur_title cur
                             end))).
  { intros H. apply Nat.leb_gt in H. unfold process_block.
    rewrite Hhead. unfold combined_content, MIN_NEW_SECTION_CONTENT_LENGTH.
    fold accumulated. fold n. rewrite H. unfold absorbed, append_block.
    destruct (cur_title cur) as [|c t]; [|reflexivity].
    destruct (cur_blocks cur); reflexivity. }
  split; [|split; [|split; [|split]]].
  - intros text Hrun. now apply (strip_join_run text).
  - split; [exact Hge|].
    intros E. destruct (Nat.lt_ge_cases n 200) as [H|H]; [|exact H].
    exfalso. rewrite (Hlt H) in E. injection E as E _.
    now apply (app_singleton_neq sections finalized).
  - split; [exact Hlt|].
    intros E. destruct (Nat.lt_ge_cases n 200) as [H|H]; [exact H|].
    exfalso. rewrite (Hge H) in E. injection E as E _.
    now apply (app_singleton_neq sections finalized).
  - intros H. rewrite Hlt by lia.
    destruct (cur_blocks cur) as [|b bs] eqn:Eb; [|now destruct (cur_title cur)].
    exfalso. unfold n, accumulated in H. try rewrite Eb in H. discriminate H.
  - intros H. apply Hge. lia.
Qed.

(** C6 at a heading block met with exactly 200, and exactly 199, characters
    accumulated under the title First Heading. *)
Lemma C6_heading_threshold_witness :
  is_potential_title heading_block = true
  /\ List.length (strip (join [sp] (cur_blocks current_200))) = 200
  /\ process_block page_one ([], current_200) heading_block
     = ([mkSection (lit "First Heading")
                   (chars 100 "a" ++ [sp] ++ chars 99 "b") 1 (lit "doc.pdf")],
        mkCurrent (lit "Second Heading") [heading_block] 1 (lit "doc.pdf"))
  /\ List.length (strip (join [sp] (cur_blocks current_199))) = 199
  /\ process_block page_one ([], current_199) heading_block
     = ([],
        mkCurrent (lit "First Heading")
                  [chars 99 "a"; chars 99 "b"; heading_block] 1 (lit "doc.pdf")).
Proof.
  assert (Hh : is_potential_title heading_block = true) by (vm_compute; reflexivity).
  assert (H200 : List.length (strip (join [sp] (cur_blocks current_200))) = 200)
    by (vm_compute; reflexivity).
  assert (H199 : List.length (strip (join [sp] (cur_blocks current_199))) = 199)
    by (vm_compute; reflexivity).
  split; [exact Hh|]. split; [exact H200|]. split; [|split; [exact H199|]].
  - etransitivity.
    + exact (proj2 (proj2 (proj2 (proj2 (C6_heading_threshold
                                           page_one [] current_200
                                           heading_block Hh)))) H200).
    + vm_compute. reflexivity.
  - exact (proj1 (proj2 (proj2 (proj2 (C6_heading_threshold
                                          page_one [] current_199
                                          heading_block Hh)))) H199).
Defined.

(** * The section builder: the end of a page *)

(** A short remainder, with a section already in the output, is merged when
    the last section has fewer than 1000 characters, and stands alone
    otherwise. *)
Lemma end_of_page_short (sections : list section) (cur : current) :
  sections <> [] ->
  combined_content cur <> [] ->
  List.length (combined_content cur) < MIN_FINAL_SECTION_LENGTH ->
  end_of_page (sections, cur)
  = if last_content_length sections <? 1000
    then extend_last sections ([nl; nl] ++ combined_content cur)
    else sections ++ [finalize cur].
Proof.
  intros Hs Hc Hlen. unfold end_of_page.
  destruct (combined_content cur) as [|ch rest] eqn:E; [congruence|].
  cbn [nonempty]. apply Nat.ltb_lt in Hlen. rewrite Hlen.
  destruct sections; [congruence|]. reflexivity.
Qed.

(** C4.  The code at the boundary: a last section of exactly 1000 characters
    does not take the short remainder of the next page, which becomes a
    section of its own; with 999 characters the remainder is merged after a
    blank line. *)
Theorem C4_exactly_1000_stands_alone :
  List.length (content (mkSection [] (chars 1000 "a") 1 (lit "doc.pdf"))) = 1000
  /\ split_into_sections [page_1000]
     = [mkSection [] (chars 1000 "a") 1 (lit "doc.pdf")]
  /\ split_into_sections [page_1000; page_tail]
     = [mkSection [] (chars 1000 "a") 1 (lit "doc.pdf");
        mkSection [] (lit "short tail") 2 (lit "doc.pdf")]
  /\ split_into_sections [page_999; page_tail]
     = [mkSection [] (chars 999 "a" ++ [nl; nl] ++ lit "short tail")
                  1 (lit "doc.pdf")].
Proof.
  split; [vm_compute; reflexivity|].
  split; [vm_compute; reflexivity|].
  split; vm_compute; reflexivity.
Qed.

(** * The section builder: where the content of a section comes from *)

Section Provenance.

Variable pages : list page.












End Provenance.

(** The text of one or more blocks of a page is not empty and has no white
    space at either end. *)
Lemma blocks_of_trimmed (p : page) (c : str) : blocks_of p c -> trimmed c.
Proof.
  intros (r & Hne & Hrun & ->). apply join_trimmed; [exact Hne|].
  apply Forall_forall. intros b Hb.
  pose proof (content_blocks_trimmed (pg_content p)) as H.
  rewrite Forall_forall in H. apply H. now apply (is_run_incl r).
Qed.


(** Characters of a piece come from the page, or are the joining space. *)



Lemma split_aux_chars (sep : str) (s : str) (skip : nat) (cur b : str) (c : ascii) :
  In b (split_aux sep skip cur s) -> In c b -> In c cur \/ In c s.
Proof.
  revert skip cur. induction s as [|d s IH]; intros skip cur Hb Hc.
  - destruct Hb as [<-|[]]. left. now apply in_rev.
  - cbn [split_aux] in Hb. destruct skip as [|k].
    + destruct (startswith sep (d :: s)).
      * destruct Hb as [<-|Hb]; [left; now apply in_rev|].
        destruct (IH _ _ Hb Hc) as [[]|H]. right. now right.
      * destruct (IH _ _ Hb Hc) as [[<-|H]|H].
        -- right. now left.
        -- now left.
        -- right. now right.
    + destruct (IH _ _ Hb Hc) as [H|H]; [now left|right; now right].
Qed.






(** * The selector: sorting by score *)

Lemma Qlt_bool_true (x y : Q) : Qlt_bool x y = true -> (x <= y)%Q.
Proof.
  unfold Qlt_bool. intros H. apply negb_true_iff in H.
  apply Qlt_le_weak. apply Qnot_le_lt. intros Hle.
  apply Qle_bool_iff in Hle. congruence.
Qed.

Lemma Qlt_bool_false (x y : Q) : Qlt_bool x y = false -> (y <= x)%Q.
Proof.
  unfold Qlt_bool. intros H. apply negb_false_iff in H.
  now apply Qle_bool_iff.
Qed.

Lemma insert_by_score_perm (x : candidate) (l : list candidate) :
  Permutation (x :: l) (insert_by_score x l).
Proof.
  induction l as [|y l IH]; [reflexivity|].
  cbn [insert_by_score]. destruct (Qlt_bool (snd x) (snd y)); [|reflexivity].
  rewrite perm_swap. now apply perm_skip.
Qed.

Lemma sorted_by_score_perm (l : list candidate) :
  Permutation l (sorted_by_score l).
Proof.
  induction l as [|x l IH]; [reflexivity|].
  cbn [sorted_by_score fold_right]. fold (sorted_by_score l).
  rewrite <- insert_by_score_perm. now apply perm_skip.
Qed.

Lemma insert_by_score_sorted (x : candidate) (l : list candidate) :
  StronglySorted score_ge l -> StronglySorted score_ge (insert_by_score x l).
Proof.
  induction 1 as [|y l Hs IH Hy]; [repeat constructor|].
  cbn [insert_by_score]. destruct (Qlt_bool (snd x) (snd y)) eqn:E.
  - constructor; [assumption|].
    apply (Permutation_Forall (insert_by_score_perm x l)).
    constructor; [|assumption]. now apply Qlt_bool_true.
  - apply Qlt_bool_false in E.
    constructor; [now constructor|].
    constructor; [exact E|].
    apply (Forall_impl _ (P := score_ge y)); [|assumption].
    intros z Hz. unfold score_ge in *. now apply (Qle_trans _ (snd y)).
Qed.

Lemma sorted_by_score_sorted (l : list candidate) :
  StronglySorted score_ge (sorted_by_score l).
Proof.
  induction l as [|x l IH]; [constructor|].
  cbn [sorted_by_score fold_right]. now apply insert_by_score_sorted.
Qed.

(** * The presenter: ranks and pairing *)

Lemma fold_left_pair_app {A B C : Type} (f : A -> B) (g : A -> C)
      (l : list A) (a : list B) (b : list C) :
  fold_left (fun (acc : list B * list C) x => (fst acc ++ [f x], snd acc ++ [g x]))
            l (a, b)
  = (a ++ map f l, b ++ map g l).
Proof.
  revert a b. induction l as [|x l IH]; intros a b; cbn [fold_left map fst snd].
  - now rewrite !app_nil_r.
  - rewrite IH. now rewrite <- !app_assoc.
Qed.

Lemma fold_left_pointwise {A B : Type} (f g : A -> B -> A) (l : list B) (a : A) :
  (forall a b, f a b = g a b) -> fold_left f l a = fold_left g l a.
Proof.
  intros H. revert a. induction l as [|b l IH]; intros a; [reflexivity|].
  cbn [fold_left]. now rewrite H, IH.
Qed.

Lemma present_maps (chosen : list candidate) :
  present chosen
  = (map extracted_of (enumerate 1 chosen), map detailed_of (enumerate 1 chosen)).
Proof.
  unfold present.
  change (map extracted_of (enumerate 1 chosen), map detailed_of (enumerate 1 chosen))
    with ([] ++ map extracted_of (enumerate 1 chosen),
          [] ++ map detailed_of (enumerate 1 chosen)).
  rewrite <- fold_left_pair_app.
  apply fold_left_pointwise. intros acc [rank [sec score]]. reflexivity.
Qed.

Lemma enumerate_fst {A : Type} (l : list A) (k : nat) :
  map fst (enumerate (Z.of_nat k) l) = map Z.of_nat (seq k (List.length l)).
Proof.
  revert k. induction l as [|x l IH]; intros k; [reflexivity|].
  cbn [enumerate map seq List.length fst]. f_equal.
  replace (Z.of_nat k + 1)%Z with (Z.of_nat (S k)) by lia. apply IH.
Qed.

Lemma enumerate_snd {A : Type} (l : list A) (k : Z) :
  map snd (enumerate k l) = l.
Proof.
  revert k. induction l as [|x l IH]; intros k; [reflexivity|].
  cbn [enumerate map snd]. now rewrite IH.
Qed.

Lemma enumerate_length {A : Type} (l : list A) (k : Z) :
  List.length (enumerate k l) = List.length l.
Proof.
  rewrite <- (enumerate_snd l k) at 2. now rewrite length_map.
Qed.

Lemma rank_sections_present (hash : str -> Z)
      (search : list section -> str -> nat -> list candidate)
      (sections : list section) (persona job : str) (max_count : Z) :
  rank_sections hash search sections persona job max_count
  = present (final_chosen hash search sections persona job max_count).
Proof.
  unfold rank_sections, final_chosen.
  destruct (filtered_sections sections); reflexivity.
Qed.

(** C7.  The selection is the chosen list of passes 1 and 2 rearranged in
    descending score order, whichever pass added an item; the entries of
    [extracted_sections] carry the ranks 1, 2, ... in that order;
    [subsection_analysis] has as many entries, and entry [i] of either list
    names the document and page of the [i]-th chosen section. *)
Theorem C7_final_order_and_pairing
  (hash : str -> Z) (search : list section -> str -> nat -> list candidate)
  (sections : list section) (persona job : str) (max_count : Z) :
  (forall results,
      StronglySorted score_ge (select hash persona max_count results)
      /\ Permutation (chosen_after_pass2 hash persona max_count results)
                     (select hash persona max_count results))
  /\ let chosen := final_chosen hash search sections persona job max_count in
     let out := rank_sections hash search sections persona job max_count in
     StronglySorted score_ge chosen
     /\ List.length (fst out) = List.length chosen
     /\ map ex_importance_rank (fst out)
        = map Z.of_nat (seq 1 (List.length (fst out)))
     /\ map extracted_place (fst out) = map (fun c => place (fst c)) chosen
     /\ List.length (snd out) = List.length (fst out)
     /\ map detailed_place (snd out) = map extracted_place (fst out).
Proof.
  split.
  - intros results. unfold select. split.
    + apply sorted_by_score_sorted.
    + apply sorted_by_score_perm.
  - intros chosen out. unfold out. rewrite rank_sections_present.
    fold chosen. rewrite present_maps. cbn [fst snd].
    rewrite !length_map, !enumerate_length.
    assert (Hplace : map extracted_place (map extracted_of (enumerate 1 chosen))
                     = map (fun c => place (fst c)) chosen).
    { rewrite map_map. rewrite <- (enumerate_snd chosen 1) at 2.
      rewrite map_map. reflexivity. }
    repeat split.
    + unfold chosen, final_chosen.
      destruct (filtered_sections sections); [constructor|].
      apply sorted_by_score_sorted.
    + rewrite map_map. cbn [extracted_of ex_importance_rank].
      change (map (fun x : Z * candidate => fst x) (enumerate 1 chosen))
        with (map fst (enumerate (Z.of_nat 1) chosen)).
      apply enumerate_fst.
    + exact Hplace.
    + rewrite Hplace. rewrite map_map. rewrite <- (enumerate_snd chosen 1) at 2.
      rewrite map_map. reflexivity.
Qed.

(** * The selector: what holds for every pool *)

Section SelectorFacts.

Variable hash : str -> Z.
Variable persona : str.
Variable max_count : Z.

Lemma pass1_at_capacity (results : list candidate) (themes : list theme)
      (chosen : list candidate) (ids : list identifier) (sid : option identifier) :
  at_capacity max_count chosen = true ->
  pass1 hash persona max_count results themes (chosen, ids, sid)
  = (chosen, ids, sid).
Proof.
  intros H. destruct themes; cbn [pass1]; [reflexivity|]. now rewrite H.
Qed.

Lemma scan_best_from (results : list candidate) (ids : list identifier)
      (t : theme) (st : scan_state) (best : candidate) :
  best_sec_for_theme (fold_left (scan_step hash persona ids t) results st)
  = Some best ->
  In best results \/ best_sec_for_theme st = Some best.
Proof.
  revert st. induction results as [|[sec score] results IH]; intros st H.
  - now right.
  - cbn [fold_left] in H. apply IH in H. destruct H as [H|H]; [left; now right|].
    unfold scan_step in H.
    destruct (_ && _); [|now right].
    destruct (match best_sec_for_theme st with None => _ | Some _ => _ end);
      [|now right].
    cbn [best_sec_for_theme] in H. injection H as <-. left. now left.
Qed.

(** When the scan has a best candidate, [sec_identifier] is bound. *)
Lemma scan_best_binds_identifier (results : list candidate)
      (ids : list identifier) (t : theme) (st : scan_state) :
  best_sec_for_theme (fold_left (scan_step hash persona ids t) results st) <> None ->
  best_sec_for_theme st <> None
  \/ sec_identifier (fold_left (scan_step hash persona ids t) results st) <> None.
Proof.
  destruct results as [|r results].
  - cbn [fold_left]. now left.
  - intros _. right. revert r st.
    induction results as [|r' results IH]; intros r st.
    + cbn [fold_left]. unfold scan_step. destruct r as [sec score].
      destruct (_ && _); [destruct (match best_sec_for_theme st with
                                     None => _ | Some _ => _ end)|];
        cbn [sec_identifier]; discriminate.
    + cbn [fold_left]. apply (IH r').
Qed.

Lemma pass1_invariant (results : list candidate) (themes : list theme)
      (chosen : list candidate) (ids : list identifier) (sid : option identifier) :
  (Z.of_nat (List.length chosen) <= Z.max 0 max_count)%Z ->
  incl chosen results ->
  let out := fst (fst (pass1 hash persona max_count results themes
                             (chosen, ids, sid))) in
  (Z.of_nat (List.length out) <= Z.max 0 max_count)%Z /\ incl out results.
Proof.
  revert chosen ids sid.
  induction themes as [|t themes IH]; intros chosen ids sid Hlen Hincl.
  - cbn. now split.
  - cbn [pass1]. destruct (at_capacity max_count chosen) eqn:Hcap.
    + cbn. now split.
    + destruct (best_sec_for_theme (scan hash persona results ids t sid))
        as [best|] eqn:Hbest.
      * apply IH.
        -- unfold at_capacity in Hcap. apply Z.leb_gt in Hcap.
           rewrite length_app. cbn [List.length]. lia.
        -- apply incl_app; [assumption|].
           unfold scan in Hbest. apply scan_best_from in Hbest.
           destruct Hbest as [H|H]; [|discriminate H].
           intros x [<-|[]]. exact H.
      * now apply IH.
Qed.

Lemma pass2_loop_invariant (sorted results : list candidate)
      (chosen : list candidate) (ids : list identifier) :
  (Z.of_nat (List.length chosen) <= Z.max 0 max_count)%Z ->
  incl chosen results ->
  incl sorted results ->
  let out := fst (pass2_loop hash max_count sorted (chosen, ids)) in
  (Z.of_nat (List.length out) <= Z.max 0 max_count)%Z /\ incl out results.
Proof.
  revert chosen ids.
  induction sorted as [|[sec score] sorted IH]; intros chosen ids Hlen Hincl Hs.
  - cbn. now split.
  - cbn [pass2_loop]. destruct (at_capacity max_count chosen) eqn:Hcap.
    + cbn. now split.
    + assert (Hs' : incl sorted results) by (intros x Hx; apply Hs; now right).
      destruct (negb _).
      * apply IH; [| |assumption].
        -- unfold at_capacity in Hcap. apply Z.leb_gt in Hcap.
           rewrite length_app. cbn [List.length]. lia.
        -- apply incl_app; [assumption|]. intros x [<-|[]]. apply Hs. now left.
      * now apply IH.
Qed.

(** The selection is never longer than [max_count] (nor than 0 when
    [max_count] is negative), and all of it comes from the pool. *)
Lemma select_bounded_subset (results : list candidate) :
  (Z.of_nat (List.length (select hash persona max_count results))
   <= Z.max 0 max_count)%Z
  /\ incl (select hash persona max_count results) results.
Proof.
  assert (H : (Z.of_nat (List.length (chosen_after_pass2 hash persona max_count results))
               <= Z.max 0 max_count)%Z
              /\ incl (chosen_after_pass2 hash persona max_count results) results).
  { unfold chosen_after_pass2.
    pose proof (pass1_invariant results (current_priority_themes persona)
                                [] [] None) as H1.
    destruct (pass1 hash persona max_count results
                    (current_priority_themes persona) ([], [], None))
      as [[chosen ids] sid].
    cbn [fst] in H1. destruct H1 as [Hlen Hincl]; [cbn; lia|intros x []|].
    unfold pass2. cbn [fst]. destruct (negb _); [|now split].
    apply pass2_loop_invariant; try assumption.
    intros x Hx. now apply (Permutation_in x (Permutation_sym (sorted_by_score_perm results))). }
  destruct H as [Hlen Hincl]. unfold select. split.
  - now rewrite <- (Permutation_length (sorted_by_score_perm _)).
  - intros x Hx. apply Hincl.
    now apply (Permutation_in x (Permutation_sym (sorted_by_score_perm _))).
Qed.

End SelectorFacts.

(** With [max_count = 0] nothing is selected. *)
Lemma select_max_zero (hash : str -> Z) (persona : str) (results : list candidate) :
  select hash persona 0 results = [].
Proof.
  pose proof (select_bounded_subset hash persona 0 results) as [H _].
  destruct (select hash persona 0 results); [reflexivity|].
  cbn [List.length] in H. lia.
Qed.

(** An empty pool gives an empty selection. *)
Lemma select_empty_pool (hash : str -> Z) (persona : str) (max_count : Z) :
  select hash persona max_count [] = [].
Proof.
  pose proof (select_bounded_subset hash persona max_count []) as [_ H].
  destruct (select hash persona max_count []) as [|x l]; [reflexivity|].
  destruct (H x). now left.
Qed.

(** In pass 1 the identifier that is added is always a bound one. *)
Lemma scan_identifier_bound (hash : str -> Z) (persona : str)
      (results : list candidate) (ids : list identifier) (t : theme)
      (sid : option identifier) :
  best_sec_for_theme (scan hash persona results ids t sid) <> None ->
  sec_identifier (scan hash persona results ids t sid) <> None.
Proof.
  intros H. unfold scan in *.
  destruct (scan_best_binds_identifier hash persona results ids t _ H) as [H'|H'];
    [now cbn in H'|exact H'].
Qed.

(** * The selector: one theme of pass 1 *)

Lemma str_eqb_eq (s t : str) : str_eqb s t = true <-> s = t.
Proof.
  revert t. induction s as [|c s IH]; intros [|d t]; cbn [str_eqb];
    try (split; discriminate); try tauto.
  rewrite andb_true_iff, Ascii.eqb_eq, IH. split.
  - now intros [-> ->].
  - intros H. injection H as -> ->. now split.
Qed.

Lemma identifier_eqb_eq (i j : identifier) : identifier_eqb i j = true <-> i = j.
Proof.
  destruct i as [[d1 p1] h1], j as [[d2 p2] h2]. cbn [identifier_eqb].
  rewrite !andb_true_iff, str_eqb_eq, !Z.eqb_eq. split.
  - now intros [[-> ->] ->].
  - intros H. injection H as -> -> ->. now repeat split.
Qed.

Lemma identifier_eqb_refl (i : identifier) : identifier_eqb i i = true.
Proof. now apply identifier_eqb_eq. Qed.

Lemma identifier_eqb_neq (i j : identifier) : i <> j -> identifier_eqb i j = false.
Proof.
  intros H. destruct (identifier_eqb i j) eqn:E; [|reflexivity].
  now apply identifier_eqb_eq in E.
Qed.

Lemma default_themes (persona : str) :
  is_travel_planner persona = false ->
  current_priority_themes persona = DEFAULT_STRICT_PRIORITY_THEMES.
Proof. intros H. unfold current_priority_themes. now rewrite H. Qed.

Section PassOne.

Variable hash : str -> Z.
Variable persona : str.
Variable max_count : Z.
Variable results : list candidate.

Lemma scan_step_sec_identifier (ids : list identifier) (t : theme)
      (st : scan_state) (r : candidate) :
  sec_identifier (scan_step hash persona ids t st r)
  = Some (sec_identifier_of hash (fst r)).
Proof.
  destruct r as [sec score]. unfold scan_step.
  destruct (_ && _); [destruct (match best_sec_for_theme st with
                                 None => _ | Some _ => _ end)|]; reflexivity.
Qed.

(** After the scan, [sec_identifier] names the last entry of the pool,
    whichever entry was the best one. *)
Lemma scan_sec_identifier (ids : list identifier) (t : theme)
      (sid : option identifier) :
  sec_identifier (scan hash persona results ids t sid)
  = last_identifier hash results sid.
Proof.
  unfold scan, last_identifier.
  change sid with (sec_identifier (mkScan None (-1)%Q sid)) at 2.
  generalize (mkScan None (-1)%Q sid). generalize results.
  induction results0 as [|r l IH]; intros st; [reflexivity|].
  cbn [fold_left]. rewrite IH. now rewrite scan_step_sec_identifier.
Qed.

Lemma scan_step_not_eligible (ids : list identifier) (t : theme)
      (st : scan_state) (r : candidate) :
  eligible hash persona ids t r = false ->
  best_sec_for_theme (scan_step hash persona ids t st r) = best_sec_for_theme st.
Proof.
  destruct r as [sec score]. unfold eligible, scan_step. cbn [fst].
  now intros ->.
Qed.

Lemma scan_none (ids : list identifier) (t : theme) (sid : option identifier) :
  forallb (fun r => negb (eligible hash persona ids t r)) results = true ->
  best_sec_for_theme (scan hash persona results ids t sid) = None.
Proof.
  unfold scan.
  change None with (best_sec_for_theme (mkScan None (-1)%Q sid)) at 2.
  generalize (mkScan None (-1)%Q sid). generalize results.
  induction results0 as [|r l IH]; intros st H; [reflexivity|].
  cbn [fold_left forallb] in *. apply andb_true_iff in H. destruct H as [Hr Hl].
  rewrite (IH _ Hl). apply scan_step_not_eligible.
  now apply negb_true_iff in Hr.
Qed.

Lemma pass1_theme_none (t : theme) (rest : list theme)
      (chosen : list candidate) (ids : list identifier) (sid : option identifier) :
  at_capacity max_count chosen = false ->
  forallb (fun r => negb (eligible hash persona ids t r)) results = true ->
  pass1 hash persona max_count results (t :: rest) (chosen, ids, sid)
  = pass1 hash persona max_count results rest
          (chosen, ids, last_identifier hash results sid).
Proof.
  intros Hcap Hnone. cbn [pass1]. rewrite Hcap, (scan_none _ _ _ Hnone).
  now rewrite scan_sec_identifier.
Qed.

Lemma pass1_theme_some (t : theme) (rest : list theme)
      (chosen : list candidate) (ids : list identifier) (sid : option identifier)
      (best : candidate) :
  at_capacity max_count chosen = false ->
  best_sec_for_theme (scan hash persona results ids t sid) = Some best ->
  pass1 hash persona max_count results (t :: rest) (chosen, ids, sid)
  = pass1 hash persona max_count results rest
          (chosen ++ [best],
           add_sec_identifier (last_identifier hash results sid) ids,
           last_identifier hash results sid).
Proof.
  intros Hcap Hbest. cbn [pass1]. rewrite Hcap, Hbest.
  now rewrite scan_sec_identifier.
Qed.

End PassOne.

(** * The selector on pools of two and three classified sections *)

Ltac eval_scores :=
  repeat match goal with
         | |- context [Qlt_bool ?x ?y] =>
             let v := eval vm_compute in (Qlt_bool x y) in
             change (Qlt_bool x y) with v
         | |- context [Qeq_bool ?x ?y] =>
             let v := eval vm_compute in (Qeq_bool x y) in
             change (Qeq_bool x y) with v
         end.

Section ClassifiedPools.

Variable hash : str -> Z.
Variable persona : str.
Variables a b c : section.

Hypothesis Ha : classify persona a = methods_procedures_steps.
Hypothesis Hb : classify persona b = other_general.
Hypothesis Hc : classify persona c = methods_procedures_steps.

Let ida := sec_identifier_of hash a.
Let idb := sec_identifier_of hash b.
Let idc := sec_identifier_of hash c.

Hypothesis Hab : ida <> idb.
Hypothesis Hac : ida <> idc.
Hypothesis Hbc : idb <> idc.

Let ca : candidate := (a, (9 # 10)%Q).
Let cb : candidate := (b, (8 # 10)%Q).
Let cc : candidate := (c, (7 # 10)%Q).

Lemma eqb_ab : identifier_eqb ida idb = false.
Proof. now apply identifier_eqb_neq. Qed.

Lemma eqb_ba : identifier_eqb idb ida = false.
Proof. apply identifier_eqb_neq. intros E. now apply Hab. Qed.

Lemma eqb_ac : identifier_eqb ida idc = false.
Proof. now apply identifier_eqb_neq. Qed.

Lemma eqb_bc : identifier_eqb idb idc = false.
Proof. now apply identifier_eqb_neq. Qed.

Ltac rewrite_facts :=
  rewrite ?Ha, ?Hb, ?Hc;
  fold ida idb idc;
  rewrite ?eqb_ab, ?eqb_ba, ?eqb_ac, ?eqb_bc, ?identifier_eqb_refl.

Ltac no_candidate :=
  unfold ca, cb, cc; cbn [forallb]; unfold eligible, id_mem; cbn [fst existsb];
  rewrite_facts; cbn [theme_beq negb andb orb]; rewrite ?andb_false_r;
  reflexivity.

Ltac best_candidate :=
  unfold ca, cb, cc, scan; cbn [fold_left]; unfold scan_step;
  cbn [id_mem existsb best_sec_for_theme best_score_for_theme sec_identifier];
  rewrite_facts;
  cbn [theme_beq negb andb orb fst snd
       best_sec_for_theme best_score_for_theme sec_identifier];
  eval_scores;
  cbn [negb andb orb best_sec_for_theme best_score_for_theme sec_identifier];
  reflexivity.

Ltac below_capacity :=
  unfold at_capacity; cbn [List.length app]; apply Z.leb_gt; lia.

Ltac full :=
  unfold at_capacity; cbn [List.length app]; apply Z.leb_le; lia.

Ltac after_scan :=
  cbn [last_identifier fold_left fst add_sec_identifier app];
  unfold ca, cb, cc; cbn [fst]; fold ida idb idc; fold ca cb cc.

(** Pass 1 on the methods theme alone. *)
Lemma pass1_methods_only :
  pass1 hash persona 2 [ca; cb; cc] [methods_procedures_steps] ([], [], None)
  = ([ca], [idc], Some idc).
Proof.
  rewrite (pass1_theme_some _ _ _ _ _ _ _ _ _ ca);
    [|below_capacity|best_candidate].
  after_scan. reflexivity.
Qed.

(** Pass 1 on three sections: the methods theme takes [a], the other_general
    theme, last in the list, takes [b]; both times the identifier of [c],
    the last entry, is what gets recorded. *)
Lemma pass1_three_sections (max_count : Z) :
  (2 <= max_count)%Z ->
  pass1 hash persona max_count [ca; cb; cc] DEFAULT_STRICT_PRIORITY_THEMES
        ([], [], None)
  = ([ca; cb], [idc; idc], Some idc).
Proof.
  intros Hmax. unfold DEFAULT_STRICT_PRIORITY_THEMES.
  rewrite (pass1_theme_some _ _ _ _ _ _ _ _ _ ca);
    [|below_capacity|best_candidate].
  after_scan.
  do 12 (rewrite pass1_theme_none; [|below_capacity|no_candidate]; after_scan).
  rewrite (pass1_theme_some _ _ _ _ _ _ _ _ _ cb);
    [|below_capacity|best_candidate].
  reflexivity.
Qed.

(** Pass 1 on two sections: [a] is taken, the identifier of [b] recorded, so
    the other_general theme finds [b] already marked. *)
Lemma pass1_two_sections (max_count : Z) :
  (2 <= max_count)%Z ->
  pass1 hash persona max_count [ca; cb] DEFAULT_STRICT_PRIORITY_THEMES
        ([], [], None)
  = ([ca], [idb], Some idb).
Proof.
  intros Hmax. unfold DEFAULT_STRICT_PRIORITY_THEMES.
  rewrite (pass1_theme_some _ _ _ _ _ _ _ _ _ ca);
    [|below_capacity|best_candidate].
  after_scan.
  do 13 (rewrite pass1_theme_none; [|below_capacity|no_candidate]; after_scan).
  reflexivity.
Qed.

Lemma sorted_three : sorted_by_score [ca; cb; cc] = [ca; cb; cc].
Proof. reflexivity. Qed.

Lemma sorted_two : sorted_by_score [ca; cb] = [ca; cb].
Proof. reflexivity. Qed.

Ltac pass2_step :=
  unfold ca, cb, cc; cbn [pass2_loop]; fold ca cb cc;
  match goal with
  | |- context [at_capacity ?m ?l] =>
      first [ replace (at_capacity m l) with false by (symmetry; below_capacity)
            | replace (at_capacity m l) with true by (symmetry; full) ]
  end;
  unfold id_mem; cbn [existsb]; fold ida idb idc;
  rewrite ?eqb_ab, ?eqb_ba, ?eqb_ac, ?eqb_bc, ?identifier_eqb_refl;
  rewrite ?orb_true_r;
  cbn [negb andb orb app].

Lemma pass2_two_sections :
  pass2 hash 2 [ca; cb] ([ca], [idb]) = ([ca; ca], [ida; idb]).
Proof.
  unfold pass2. cbn [fst].
  replace (at_capacity 2 [ca]) with false by (symmetry; below_capacity).
  cbn [negb]. rewrite sorted_two.
  pass2_step. pass2_step. reflexivity.
Qed.

Lemma pass2_three_sections_2 :
  pass2 hash 2 [ca; cb; cc] ([ca; cb], [idc; idc]) = ([ca; cb], [idc; idc]).
Proof.
  unfold pass2. cbn [fst].
  replace (at_capacity 2 [ca; cb]) with true by (symmetry; full).
  reflexivity.
Qed.

Lemma pass2_three_sections_3 :
  pass2 hash 3 [ca; cb; cc] ([ca; cb], [idc; idc])
  = ([ca; cb; ca], [ida; idc; idc]).
Proof.
  unfold pass2. cbn [fst].
  replace (at_capacity 3 [ca; cb]) with false by (symmetry; below_capacity).
  cbn [negb]. rewrite sorted_three.
  pass2_step. pass2_step. reflexivity.
Qed.

Lemma pass2_three_sections_5 :
  pass2 hash 5 [ca; cb; cc] ([ca; cb], [idc; idc])
  = ([ca; cb; ca; cb], [idb; ida; idc; idc]).
Proof.
  unfold pass2. cbn [fst].
  replace (at_capacity 5 [ca; cb]) with false by (symmetry; below_capacity).
  cbn [negb]. rewrite sorted_three.
  pass2_step. pass2_step. pass2_step. reflexivity.
Qed.

End ClassifiedPools.

(** * The selector on the concrete pools *)

Lemma classify_a : classify analyst sec_methods_a = methods_procedures_steps.
Proof. vm_compute. reflexivity. Qed.

Lemma classify_b : classify analyst sec_other_b = other_general.
Proof. vm_compute. reflexivity. Qed.

Lemma classify_c : classify analyst sec_methods_c = methods_procedures_steps.
Proof. vm_compute. reflexivity. Qed.

Lemma analyst_plain : is_travel_planner analyst = false.
Proof. reflexivity. Qed.

Lemma different_document (hash : str -> Z) (s t : section) :
  str_eqb (document s) (document t) = false ->
  sec_identifier_of hash s <> sec_identifier_of hash t.
Proof.
  intros H E. injection E as Ed _ _. rewrite Ed in H.
  assert (T : str_eqb (document t) (document t) = true) by now apply str_eqb_eq.
  congruence.
Qed.

Lemma pool_two_distinct (hash : str -> Z) : NoDup (identifiers hash pool_two).
Proof.
  cbn [identifiers map pool_two fst cand_a cand_b].
  apply NoDup_cons; [|apply NoDup_cons; [intros []|apply NoDup_nil]].
  intros [H|[]]. symmetry in H. revert H. now apply different_document.
Qed.

Lemma pool_three_distinct (hash : str -> Z) : NoDup (identifiers hash pool_three).
Proof.
  cbn [identifiers map pool_three fst cand_a cand_b cand_c].
  apply NoDup_cons; [|apply NoDup_cons; [|apply NoDup_cons; [intros []|apply NoDup_nil]]].
  - intros [H|[H|[]]]; symmetry in H; revert H; now apply different_document.
  - intros [H|[]]. symmetry in H. revert H. now apply different_document.
Qed.

Lemma repeated_head_not_NoDup {A : Type} (x : A) (l : list A) :
  ~ NoDup (x :: x :: l).
Proof.
  intros H. inversion H as [|? ? Hn _]. apply Hn. now left.
Qed.

Lemma pass1_pool_two (hash : str -> Z) (max_count : Z) :
  (2 <= max_count)%Z ->
  pass1 hash analyst max_count pool_two (current_priority_themes analyst)
        ([], [], None)
  = ([cand_a], [sec_identifier_of hash sec_other_b],
     Some (sec_identifier_of hash sec_other_b)).
Proof.
  intros H. rewrite (default_themes _ analyst_plain).
  apply (pass1_two_sections hash analyst sec_methods_a sec_other_b
                            classify_a classify_b); [|exact H].
  now apply different_document.
Qed.

Lemma pass1_pool_three (hash : str -> Z) (max_count : Z) :
  (2 <= max_count)%Z ->
  pass1 hash analyst max_count pool_three (current_priority_themes analyst)
        ([], [], None)
  = ([cand_a; cand_b],
     [sec_identifier_of hash sec_methods_c; sec_identifier_of hash sec_methods_c],
     Some (sec_identifier_of hash sec_methods_c)).
Proof.
  intros H. rewrite (default_themes _ analyst_plain).
  apply (pass1_three_sections hash analyst sec_methods_a sec_other_b sec_methods_c
                              classify_a classify_b classify_c); [| |exact H];
    now apply different_document.
Qed.

(** C1.  The code on a pool of two sections with different identifiers and
    room for two: pass 1 picks the methods section but records the
    identifier of the last section scanned, so pass 2 adds the methods
    section a second time.  The selection, and with it
    [extracted_sections], holds the same identifier twice. *)
Theorem C1_selection_repeats_identifier (hash : str -> Z) :
  NoDup (identifiers hash pool_two)
  /\ chosen_after_pass1 hash analyst 2 pool_two = [cand_a]
  /\ chosen_after_pass2 hash analyst 2 pool_two = [cand_a; cand_a]
  /\ select hash analyst 2 pool_two = [cand_a; cand_a]
  /\ ~ NoDup (identifiers hash (select hash analyst 2 pool_two))
  /\ filtered_sections [sec_methods_a; sec_other_b] = [sec_methods_a; sec_other_b]
  /\ map (fun e => (ex_document e, ex_page_number e, ex_importance_rank e))
         (fst (rank_sections hash search_two [sec_methods_a; sec_other_b]
                             analyst analyst 2))
     = [(lit "a.pdf", 1%Z, 1%Z); (lit "a.pdf", 1%Z, 2%Z)].
Proof.
  assert (E2 : chosen_after_pass2 hash analyst 2 pool_two = [cand_a; cand_a]).
  { unfold chosen_after_pass2. rewrite pass1_pool_two by lia.
    unfold pool_two, cand_a, cand_b. rewrite pass2_two_sections; [reflexivity|].
    now apply different_document. }
  assert (E : select hash analyst 2 pool_two = [cand_a; cand_a]).
  { unfold select. rewrite E2. reflexivity. }
  split; [apply pool_two_distinct|].
  split; [unfold chosen_after_pass1; now rewrite pass1_pool_two by lia|].
  split; [exact E2|].
  split; [exact E|].
  split; [rewrite E; apply repeated_head_not_NoDup|].
  split; [vm_compute; reflexivity|].
  rewrite rank_sections_present. unfold final_chosen.
  replace (filtered_sections [sec_methods_a; sec_other_b])
    with [sec_methods_a; sec_other_b] by (vm_compute; reflexivity).
  unfold search_two. rewrite E. rewrite present_maps. reflexivity.
Qed.

(** C2.  The code on a pool of three sections with different identifiers:
    with [max_count = 3], the pool size, the selection has three entries but
    two of them are the same section and the third section of the pool is
    missing; with [max_count = 5] the selection has four entries, more than
    the pool. *)
Theorem C2_selection_with_room_for_all (hash : str -> Z) :
  NoDup (identifiers hash pool_three)
  /\ List.length pool_three = 3
  /\ chosen_after_pass2 hash analyst 3 pool_three = [cand_a; cand_b; cand_a]
  /\ select hash analyst 3 pool_three = [cand_a; cand_a; cand_b]
  /\ ~ NoDup (identifiers hash (select hash analyst 3 pool_three))
  /\ select hash analyst 5 pool_three = [cand_a; cand_a; cand_b; cand_b]
  /\ List.length (select hash analyst 5 pool_three) = 4.
Proof.
  assert (Hab : sec_identifier_of hash sec_methods_a
                <> sec_identifier_of hash sec_other_b)
    by now apply different_document.
  assert (Hac : sec_identifier_of hash sec_methods_a
                <> sec_identifier_of hash sec_methods_c)
    by now apply different_document.
  assert (Hbc : sec_identifier_of hash sec_other_b
                <> sec_identifier_of hash sec_methods_c)
    by now apply different_document.
  assert (P3 : chosen_after_pass2 hash analyst 3 pool_three
               = [cand_a; cand_b; cand_a]).
  { unfold chosen_after_pass2. rewrite pass1_pool_three by lia.
    unfold pool_three, cand_a, cand_b, cand_c.
    now rewrite pass2_three_sections_3. }
  assert (E3 : select hash analyst 3 pool_three = [cand_a; cand_a; cand_b]).
  { unfold select. rewrite P3. reflexivity. }
  assert (E5 : select hash analyst 5 pool_three
               = [cand_a; cand_a; cand_b; cand_b]).
  { unfold select, chosen_after_pass2. rewrite pass1_pool_three by lia.
    unfold pool_three, cand_a, cand_b, cand_c.
    now rewrite pass2_three_sections_5. }
  split; [apply pool_three_distinct|].
  split; [reflexivity|].
  split; [exact P3|].
  split; [exact E3|].
  split; [rewrite E3; apply repeated_head_not_NoDup|].
  split; [exact E5|].
  rewrite E5. reflexivity.
Qed.

(** C8, as stated, fails: on the pool of the scenario, whatever the hash
    function, pass 1 does not stop at the methods section; the other_general
    section is already in the list when pass 1 ends. *)
Lemma C8_backfill_not_used :
  ~ exists hash : str -> Z,
      chosen_after_pass1 hash analyst 2 pool_three = [cand_a].
Proof.
  intros [hash H].
  assert (E : chosen_after_pass1 hash analyst 2 pool_three = [cand_a; cand_b]).
  { unfold chosen_after_pass1. now rewrite pass1_pool_three by lia. }
  rewrite E in H. apply (f_equal (@List.length candidate)) in H.
  discriminate H.
Qed.

(** C8, amended.  Three sections with different identifiers, classified
    methods, other_general and methods and scored 0.9, 0.8 and 0.7, with
    [max_count = 2] and a persona that is no travel planner: pass 1 takes
    the 0.9 section on the methods theme, the first of the priority list,
    and then the 0.8 section on the other_general theme, the last of the
    list; the list is full, pass 2 adds nothing, and the final order is the
    0.9 section followed by the 0.8 section. *)
Theorem C8_three_sections_two_slots
  (hash : str -> Z) (persona : str) (a b c : section)
  (Hplain : is_travel_planner persona = false)
  (Ha : classify persona a = methods_procedures_steps)
  (Hb : classify persona b = other_general)
  (Hc : classify persona c = methods_procedures_steps)
  (Hdistinct : NoDup [sec_identifier_of hash a; sec_identifier_of hash b;
                      sec_identifier_of hash c]) :
  let pool := [(a, (9 # 10)%Q); (b, (8 # 10)%Q); (c, (7 # 10)%Q)] in
  hd_error (current_priority_themes persona) = Some methods_procedures_steps
  /\ last (current_priority_themes persona) methods_procedures_steps
     = other_general
  /\ fst (fst (pass1 hash persona 2 pool [methods_procedures_steps] ([], [], None)))
     = [(a, (9 # 10)%Q)]
  /\ chosen_after_pass1 hash persona 2 pool = [(a, (9 # 10)%Q); (b, (8 # 10)%Q)]
  /\ chosen_after_pass2 hash persona 2 pool = [(a, (9 # 10)%Q); (b, (8 # 10)%Q)]
  /\ select hash persona 2 pool = [(a, (9 # 10)%Q); (b, (8 # 10)%Q)].
Proof.
  intros pool.
  assert (Hac : sec_identifier_of hash a <> sec_identifier_of hash c).
  { intros E. apply NoDup_cons_iff in Hdistinct. apply (proj1 Hdistinct).
    right. left. now symmetry. }
  assert (Hbc : sec_identifier_of hash b <> sec_identifier_of hash c).
  { intros E. apply NoDup_cons_iff in Hdistinct. destruct Hdistinct as [_ Hd].
    apply NoDup_cons_iff in Hd. apply (proj1 Hd). left. now symmetry. }
  assert (P1 : pass1 hash persona 2 pool (current_priority_themes persona)
                     ([], [], None)
               = ([(a, (9 # 10)%Q); (b, (8 # 10)%Q)],
                  [sec_identifier_of hash c; sec_identifier_of hash c],
                  Some (sec_identifier_of hash c))).
  { rewrite (default_themes _ Hplain).
    apply pass1_three_sections; try assumption. lia. }
  assert (P2 : chosen_after_pass2 hash persona 2 pool
               = [(a, (9 # 10)%Q); (b, (8 # 10)%Q)]).
  { unfold chosen_after_pass2. rewrite P1. unfold pool.
    now rewrite pass2_three_sections_2. }
  rewrite (default_themes _ Hplain).
  split; [reflexivity|]. split; [reflexivity|].
  split; [exact (f_equal (fun st => fst (fst st))
                        (pass1_methods_only hash persona a b c Ha Hb Hc))|].
  split; [unfold chosen_after_pass1; now rewrite P1|].
  split; [exact P2|].
  unfold select. rewrite P2. reflexivity.
Qed.

(** The amended C8 at the concrete pool of three sections. *)
Lemma C8_three_sections_witness :
  select (fun s => Z.of_nat (List.length s)) analyst 2 pool_three
  = [cand_a; cand_b].
Proof.
  refine (proj2 (proj2 (proj2 (proj2 (proj2
    (C8_three_sections_two_slots (fun s => Z.of_nat (List.length s)) analyst
       sec_methods_a sec_other_b sec_methods_c
       analyst_plain classify_a classify_b classify_c _)))))).
  apply (pool_three_distinct (fun s => Z.of_nat (List.length s))).
Defined.

(** * The section builder: further properties *)

(** The three outcomes of one block. *)
Lemma process_block_cases (pg : page) (sections : list section)
      (cur : current) (block : str) :
  (process_block pg (sections, cur) block
   = (sections ++ [finalize cur],
      mkCurrent (first_line_of_block block) [block]
                (pg_page_number pg) (pg_document pg))
   /\ is_potential_title block = true
   /\ MIN_NEW_SECTION_CONTENT_LENGTH <= List.length (combined_content cur))
  \/ (process_block pg (sections, cur) block
      = (sections,
         mkCurrent (first_line_of_block block) (cur_blocks cur ++ [block])
                   (cur_page_number cur) (cur_document cur))
      /\ is_potential_title block = true
      /\ cur_title cur = [] /\ cur_blocks cur = [])
  \/ process_block pg (sections, cur) block = (sections, append_block cur block).
Proof.
  unfold process_block.
  destruct (is_potential_title block); [|now right; right].
  destruct (_ <=? _) eqn:E.
  - left. apply Nat.leb_le in E. now repeat split.
  - destruct (cur_title cur) eqn:Et; cbn [nonempty negb andb];
      [|now right; right].
    destruct (cur_blocks cur) eqn:Eb; [|now right; right].
    right. left. now repeat split.
Qed.

(** The three outcomes of the end of a page. *)
Lemma end_of_page_cases (sections : list section) (cur : current) :
  end_of_page (sections, cur) = sections
  \/ (end_of_page (sections, cur)
      = extend_last sections ([nl; nl] ++ combined_content cur)
      /\ sections <> [] /\ combined_content cur <> []
      /\ List.length (combined_content cur) < MIN_FINAL_SECTION_LENGTH)
  \/ (end_of_page (sections, cur) = sections ++ [finalize cur]
      /\ combined_content cur <> []).
Proof.
  unfold end_of_page.
  destruct (combined_content cur) as [|ch rest] eqn:Ec; [now left|].
  cbn [nonempty].
  destruct (_ <? MIN_FINAL_SECTION_LENGTH) eqn:Elen.
  - destruct sections as [|s0 rest0]; cbn [negb andb].
    + rewrite orb_true_r. right. right. split; [reflexivity|discriminate].
    + destruct (_ <? 1000).
      * right. left. apply Nat.ltb_lt in Elen.
        repeat split; try discriminate. exact Elen.
      * right. right. split; [reflexivity|discriminate].
  - cbn [andb].
    destruct (_ || _); [|now left].
    right. right. split; [reflexivity|discriminate].
Qed.

Section BuilderInvariant.

(** An invariant [I] of the output list and an invariant [J] of the open
    section carry over to the result when each step keeps them. *)
Variable I : list section -> Prop.
Variable J : page -> current -> Prop.

Hypothesis Hfresh : forall pg, J pg (fresh_current pg).
Hypothesis Hblock :
  forall pg sections cur block,
    In block (content_blocks (pg_content pg)) ->
    I sections -> J pg cur ->
    I (fst (process_block pg (sections, cur) block))
    /\ J pg (snd (process_block pg (sections, cur) block)).
Hypothesis Hend :
  forall pg sections cur, I sections -> J pg cur -> I (end_of_page (sections, cur)).

Lemma fold_blocks_invariant (pg : page) (blocks : list str)
      (st : list section * current) :
  incl blocks (content_blocks (pg_content pg)) ->
  I (fst st) -> J pg (snd st) ->
  I (fst (fold_left (process_block pg) blocks st))
  /\ J pg (snd (fold_left (process_block pg) blocks st)).
Proof.
  revert st. induction blocks as [|b blocks IH]; intros [sections cur] Hincl HI HJ.
  - now split.
  - cbn [fold_left]. cbn [fst snd] in HI, HJ.
    destruct (Hblock pg sections cur b (Hincl b (or_introl eq_refl)) HI HJ)
      as [HI' HJ'].
    apply IH; try assumption.
    intros x Hx. apply Hincl. now right.
Qed.

Lemma process_page_invariant (sections : list section) (pg : page) :
  I sections -> I (process_page sections pg).
Proof.
  intros HI. unfold process_page.
  destruct (fold_blocks_invariant pg (content_blocks (pg_content pg))
                                  (sections, fresh_current pg))
    as [HI' HJ']; [apply incl_refl|exact HI|apply Hfresh|].
  destruct (fold_left _ _ _) as [sections' cur']. now apply (Hend pg).
Qed.

Lemma split_into_sections_invariant (pages : list page) :
  I [] -> I (split_into_sections pages).
Proof.
  unfold split_into_sections. generalize (@nil section).
  induction pages as [|pg pages IH]; intros sections HI; [exact HI|].
  cbn [fold_left]. apply IH. now apply process_page_invariant.
Qed.

End BuilderInvariant.

Lemma extend_last_Forall (P : section -> Prop) (sections : list section)
      (extra : str) :
  (forall s, P s ->
             P (mkSection (title s) (content s ++ extra) (page_number s) (document s))) ->
  Forall P sections -> Forall P (extend_last sections extra).
Proof.
  intros Hext H. induction H as [|s rest Hs Hrest IH]; [constructor|].
  destruct rest as [|s' rest'].
  - cbn [extend_last]. constructor; [now apply Hext|constructor].
  - change (extend_last (s :: s' :: rest') extra)
      with (s :: extend_last (s' :: rest') extra).
    now constructor.
Qed.

(** X1.  Every section emitted by [split_into_sections] has a non-empty
    content. *)
Theorem sections_have_content (pages : list page) :
  Forall (fun s => content s <> []) (split_into_sections pages).
Proof.
  apply (split_into_sections_invariant
           (Forall (fun s => content s <> [])) (fun _ _ => True)).
  - exact (fun _ => Logic.I).
  - intros pg sections cur block _ HI _. split; [|exact Logic.I].
    destruct (process_block_cases pg sections cur block)
      as [(E & _ & Hlen)|[(E & _)|E]]; rewrite E; cbn [fst]; try assumption.
    apply Forall_app. split; [assumption|]. constructor; [|constructor].
    cbn [finalize content]. intros E0. rewrite E0 in Hlen.
    unfold MIN_NEW_SECTION_CONTENT_LENGTH in Hlen. cbn in Hlen. lia.
  - intros pg sections cur HI _.
    destruct (end_of_page_cases sections cur) as [E|[(E & _)|(E & Hne)]];
      rewrite E; try assumption.
    + apply extend_last_Forall; [|assumption].
      intros s Hs. cbn [content]. intros E0. apply app_eq_nil in E0. tauto.
    + apply Forall_app. split; [assumption|]. constructor; [|constructor].
      exact Hne.
  - constructor.
Qed.

(** X2.  The title of an emitted section is empty or a line that
    the heading pattern accepts and that has at most ten words. *)
Theorem section_titles_are_headings (pages : list page) :
  Forall (fun s => heading_title (title s)) (split_into_sections pages).
Proof.
  apply (split_into_sections_invariant
           (Forall (fun s => heading_title (title s)))
           (fun _ cur => heading_title (cur_title cur))).
  - intros pg. now left.
  - intros pg sections cur block _ HI HJ.
    assert (Ht : is_potential_title block = true ->
                 heading_title (first_line_of_block block)).
    { unfold is_potential_title. intros H. apply andb_true_iff in H.
      destruct H as [Hre Hwc]. right. split; [exact Hre|].
      apply negb_true_iff, Nat.ltb_ge in Hwc. exact Hwc. }
    destruct (process_block_cases pg sections cur block)
      as [(E & Hp & _)|[(E & Hp & _)|E]]; rewrite E; cbn [fst snd cur_title append_block].
    + split; [|now apply Ht].
      apply Forall_app. split; [assumption|]. now constructor.
    + split; [assumption|now apply Ht].
    + now split.
  - intros pg sections cur HI HJ.
    destruct (end_of_page_cases sections cur) as [E|[(E & _)|(E & _)]];
      rewrite E; try assumption.
    + apply extend_last_Forall; [|assumption]. intros s Hs. exact Hs.
    + apply Forall_app. split; [assumption|]. now constructor.
  - constructor.
Qed.

(** ** Order of the sections *)

Lemma extend_last_places (sections : list section) (extra : str) :
  map place (extend_last sections extra) = map place sections.
Proof.
  induction sections as [|s rest IH]; [reflexivity|].
  destruct rest as [|s' rest'].
  - reflexivity.
  - change (extend_last (s :: s' :: rest') extra)
      with (s :: extend_last (s' :: rest') extra).
    cbn [map]. now rewrite IH.
Qed.

Lemma fold_blocks_places (pg : page) (blocks : list str)
      (sections : list section) (cur : current) :
  (cur_document cur, cur_page_number cur) = pg_place pg ->
  exists k,
    map place (fst (fold_left (process_block pg) blocks (sections, cur)))
    = map place sections ++ repeat (pg_place pg) k
    /\ (cur_document (snd (fold_left (process_block pg) blocks (sections, cur))),
        cur_page_number (snd (fold_left (process_block pg) blocks (sections, cur))))
       = pg_place pg.
Proof.
  revert sections cur.
  induction blocks as [|b blocks IH]; intros sections cur Hcur.
  - exists 0. cbn [fold_left fst snd repeat]. now rewrite app_nil_r.
  - cbn [fold_left].
    destruct (process_block_cases pg sections cur b)
      as [(E & _)|[(E & _)|E]]; rewrite E.
    + destruct (IH (sections ++ [finalize cur])
                   (mkCurrent (first_line_of_block b) [b]
                              (pg_page_number pg) (pg_document pg)))
        as (k & Hk & Hc); [reflexivity|].
      exists (S k). split; [|exact Hc].
      rewrite Hk, map_app, <- app_assoc. cbn [map app repeat].
      unfold place at 2. cbn [finalize document page_number].
      now rewrite Hcur.
    + apply IH. exact Hcur.
    + apply IH. exact Hcur.
Qed.

Lemma end_of_page_places (sections : list section) (cur : current) :
  exists k,
    map place (end_of_page (sections, cur))
    = map place sections ++ repeat (cur_document cur, cur_page_number cur) k.
Proof.
  destruct (end_of_page_cases sections cur) as [E|[(E & _)|(E & _)]]; rewrite E.
  - exists 0. cbn [repeat]. now rewrite app_nil_r.
  - exists 0. cbn [repeat]. now rewrite extend_last_places, app_nil_r.
  - exists 1. now rewrite map_app.
Qed.

Lemma process_page_places (sections : list section) (pg : page) :
  exists k,
    map place (process_page sections pg)
    = map place sections ++ repeat (pg_place pg) k.
Proof.
  unfold process_page.
  destruct (fold_blocks_places pg (content_blocks (pg_content pg)) sections
                               (fresh_current pg)) as (k1 & H1 & Hc);
    [reflexivity|].
  destruct (fold_left _ _ _) as [sections' cur']. cbn [fst snd] in H1, Hc.
  destruct (end_of_page_places sections' cur') as (k2 & H2).
  exists (k1 + k2). rewrite H2, H1, Hc, repeat_app. now rewrite <- app_assoc.
Qed.

Lemma fold_pages_places (pages : list page) (sections : list section) :
  exists counts,
    List.length counts = List.length pages
    /\ map place (fold_left process_page pages sections)
       = map place sections ++ places_in_page_order pages counts.
Proof.
  revert sections. induction pages as [|pg pages IH]; intros sections.
  - exists []. cbn. now rewrite app_nil_r.
  - cbn [fold_left].
    destruct (IH (process_page sections pg)) as (counts & Hlen & H).
    destruct (process_page_places sections pg) as (k & Hk).
    exists (k :: counts). split; [cbn; now rewrite Hlen|].
    rewrite H, Hk. cbn [places_in_page_order]. now rewrite <- app_assoc.
Qed.

(** X3.  The sections come out page after page: the documents and
    page numbers of the emitted sections are those of the first page, some
    number of times (possibly none), then those of the second page, and so
    on in the order of the input. *)
Theorem sections_follow_page_order (pages : list page) :
  exists counts,
    List.length counts = List.length pages
    /\ map place (split_into_sections pages)
       = places_in_page_order pages counts.
Proof.
  destruct (fold_pages_places pages []) as (counts & Hlen & H).
  exists counts. split; [exact Hlen|exact H].
Qed.

(** ** Blank pages and the first section *)

Lemma lstrip_all_space (s : str) :
  forallb is_space s = true -> lstrip s = [].
Proof.
  induction s as [|c s IH]; [reflexivity|].
  cbn [forallb lstrip]. intros H. apply andb_true_iff in H.
  destruct H as [-> Hs]. now apply IH.
Qed.

Lemma strip_all_space (s : str) :
  forallb is_space s = true -> strip s = [].
Proof.
  intros H. unfold strip, rstrip. now rewrite (lstrip_all_space s H).
Qed.

Lemma filter_none {A : Type} (f : A -> bool) (l : list A) :
  (forall x, In x l -> f x = false) -> filter f l = [].
Proof.
  induction l as [|x l IH]; intros H; [reflexivity|].
  cbn [filter]. rewrite (H x (or_introl eq_refl)). apply IH.
  intros y Hy. apply H. now right.
Qed.

Lemma content_blocks_blank (text : str) :
  forallb is_space text = true -> content_blocks text = [].
Proof.
  intros H. unfold content_blocks. rewrite filter_none; [reflexivity|].
  intros b Hb. rewrite strip_all_space; [reflexivity|].
  apply forallb_forall. intros c Hc.
  destruct (split_aux_chars _ _ _ _ _ _ Hb Hc) as [[]|Hin].
  rewrite forallb_forall in H. now apply H.
Qed.

Lemma process_page_no_blocks (sections : list section) (pg : page) :
  content_blocks (pg_content pg) = [] -> process_page sections pg = sections.
Proof.
  intros E. unfold process_page. rewrite E. reflexivity.
Qed.

(** X4.  A page whose content is only whitespace (or empty)
    adds no section and changes none: the result is the same as without
    the page. *)
Theorem blank_page_is_ignored (before after : list page) (pg : page)
  (Hblank : forallb is_space (pg_content pg) = true) :
  split_into_sections (before ++ pg :: after)
  = split_into_sections (before ++ after).
Proof.
  unfold split_into_sections. rewrite !fold_left_app. cbn [fold_left].
  now rewrite (process_page_no_blocks _ pg (content_blocks_blank _ Hblank)).
Qed.

(** A page of spaces and newlines between two pages of text. *)
Lemma blank_page_is_ignored_witness :
  split_into_sections
    [page_first; mkPage (lit "a.pdf") 2 (lit "  " ++ [nl; nl] ++ lit " "); page_second]
  = split_into_sections [page_first; page_second].
Proof.
  apply (blank_page_is_ignored [page_first] [page_second]
           (mkPage (lit "a.pdf") 2 (lit "  " ++ [nl; nl] ++ lit " "))).
  reflexivity.
Defined.

Lemma process_page_length (sections : list section) (pg : page) :
  List.length sections <= List.length (process_page sections pg).
Proof.
  destruct (process_page_places sections pg) as (k & Hk).
  apply (f_equal (@List.length _)) in Hk.
  rewrite length_app, !length_map in Hk. lia.
Qed.

Lemma fold_pages_length (pages : list page) (sections : list section) :
  List.length sections <= List.length (fold_left process_page pages sections).
Proof.
  revert sections. induction pages as [|pg pages IH]; intros sections; [cbn; lia|].
  cbn [fold_left]. etransitivity; [apply (process_page_length sections pg)|apply IH].
Qed.

Lemma fold_blocks_open (pg : page) (blocks : list str)
      (sections : list section) (cur : current) :
  Forall trimmed blocks ->
  Forall trimmed (cur_blocks cur) ->
  (blocks <> [] \/ cur_blocks cur <> []) ->
  let st := fold_left (process_block pg) blocks (sections, cur) in
  Forall trimmed (cur_blocks (snd st)) /\ cur_blocks (snd st) <> [].
Proof.
  revert sections cur.
  induction blocks as [|b blocks IH]; intros sections cur Hbs Hcur Hne st.
  - subst st. cbn [fold_left snd]. split; [exact Hcur|]. destruct Hne; congruence.
  - subst st. cbn [fold_left].
    apply Forall_cons_iff in Hbs. destruct Hbs as [Hb Hbs].
    assert (Hcb : Forall trimmed (cur_blocks cur ++ [b]))
      by (apply Forall_app; split; [exact Hcur|now constructor]).
    destruct (process_block_cases pg sections cur b)
      as [(E & _)|[(E & _)|E]]; rewrite E; apply IH;
      cbn [cur_blocks append_block]; try assumption.
    + now constructor.
    + right. discriminate.
    + right. now destruct (cur_blocks cur).
    + right. now destruct (cur_blocks cur).
Qed.

Lemma process_page_first_section (sections : list section) (pg : page) :
  content_blocks (pg_content pg) <> [] -> process_page sections pg <> [].
Proof.
  intros Hne. unfold process_page.
  destruct (fold_blocks_open pg (content_blocks (pg_content pg)) sections
                             (fresh_current pg)) as [Htr Hcb].
  - apply content_blocks_trimmed.
  - constructor.
  - now left.
  - destruct (fold_left _ _ _) as [sections' cur']. cbn [snd] in Htr, Hcb.
    assert (Hc : combined_content cur' <> []).
    { unfold combined_content. rewrite (strip_join_blocks _ Htr).
      destruct (join_trimmed _ Hcb Htr) as (c & d & m & [[E _]|E] & _);
        rewrite E; discriminate. }
    destruct (end_of_page_cases sections' cur') as [E|[(E & Hs & _)|(E & _)]].
    + unfold end_of_page in E |- *.
      destruct (combined_content cur') as [|ch rest] eqn:Ec; [congruence|].
      cbn [nonempty] in *. destruct sections' as [|s0 rest0]; [|destruct (_ && _);
        [destruct (_ <? 1000)|destruct (_ || _)]; try discriminate;
        destruct rest0; discriminate].
      cbn [negb andb]. rewrite andb_false_r, orb_true_r. discriminate.
    + rewrite E. intros E0. apply (f_equal (map place)) in E0.
      rewrite extend_last_places in E0. destruct sections'; [congruence|discriminate E0].
    + rewrite E. intros E0. apply app_eq_nil in E0. destruct E0 as [_ E0]. discriminate.
Qed.

(** X5.  As soon as one page has a non-blank block, at
    least one section is emitted, however short the text is. *)
Theorem some_text_gives_a_section (pages : list page) (pg : page)
  (Hin : In pg pages)
  (Htext : content_blocks (pg_content pg) <> []) :
  split_into_sections pages <> [].
Proof.
  apply in_split in Hin. destruct Hin as (before & after & ->).
  unfold split_into_sections. rewrite fold_left_app. cbn [fold_left].
  pose proof (process_page_first_section
                (fold_left process_page before []) pg Htext) as H1.
  pose proof (fold_pages_length after
                (process_page (fold_left process_page before []) pg)) as H2.
  intros E. rewrite E in H2.
  destruct (process_page _ pg); [congruence|]. cbn in H2. lia.
Qed.

(** A single page holding the one word [one]. *)
Lemma some_text_gives_a_section_witness :
  split_into_sections [page_first] <> [].
Proof.
  apply (some_text_gives_a_section [page_first] page_first).
  - now left.
  - vm_compute. discriminate.
Defined.

(** * Patterns: what an accepted string looks like *)

Lemma nullable_matches (r : re) :
  plain r = true -> nullable r = true -> matches r [].
Proof.
  induction r as [| |p|a IHa b IHb|a IHa b IHb|a IHa|lo hi a IHa];
    cbn [plain nullable]; intros Hp Hn; try discriminate.
  - constructor.
  - apply andb_true_iff in Hp, Hn. destruct Hp, Hn.
    change (@nil ascii) with (@nil ascii ++ []). constructor; auto.
  - apply andb_true_iff in Hp. destruct Hp.
    apply orb_true_iff in Hn. destruct Hn; [apply MAltL|apply MAltR]; auto.
  - constructor.
  - apply andb_true_iff in Hp. destruct Hp as [_ Hna].
    apply negb_true_iff in Hna. rewrite Hna, orb_false_r in Hn.
    apply Nat.eqb_eq in Hn. subst lo. constructor.
Qed.

Lemma plain_deriv (c : ascii) (r : re) :
  plain r = true -> plain (deriv c r) = true.
Proof.
  induction r as [| |p|a IHa b IHb|a IHa b IHb|a IHa|lo hi a IHa];
    cbn [plain deriv]; intros Hp; try reflexivity.
  - now destruct (p c).
  - apply andb_true_iff in Hp. destruct Hp as [Ha Hb].
    destruct (nullable a); cbn [plain]; rewrite ?IHa, ?IHb, ?Hb; auto.
  - apply andb_true_iff in Hp. destruct Hp as [Ha Hb].
    now rewrite IHa, IHb.
  - now rewrite IHa, Hp.
  - destruct hi; [reflexivity|]. cbn [plain].
    apply andb_true_iff in Hp. destruct Hp as [Ha Hn].
    now rewrite IHa, Ha, Hn.
Qed.

Lemma deriv_matches (c : ascii) (r : re) (s : str) :
  plain r = true -> matches (deriv c r) s -> matches r (c :: s).
Proof.
  revert s.
  induction r as [| |p|a IHa b IHb|a IHa b IHb|a IHa|lo hi a IHa];
    cbn [plain deriv]; intros s Hp H.
  - inversion H.
  - inversion H.
  - destruct (p c) eqn:E; inversion H; subst. now constructor.
  - apply andb_true_iff in Hp. destruct Hp as [Ha Hb].
    assert (Hseq : forall s0, matches (Seq (deriv c a) b) s0 ->
                              matches (Seq a b) (c :: s0)).
    { intros s0 H0. inversion H0; subst.
      change (c :: s1 ++ t) with ((c :: s1) ++ t). constructor; auto. }
    destruct (nullable a) eqn:En.
    + inversion H; subst; [now apply Hseq|].
      change (c :: s) with ([] ++ c :: s). constructor; auto.
      now apply nullable_matches.
    + now apply Hseq.
  - apply andb_true_iff in Hp. destruct Hp as [Ha Hb].
    inversion H; subst; [apply MAltL|apply MAltR]; auto.
  - inversion H; subst.
    change (c :: s0 ++ t) with ((c :: s0) ++ t). constructor; auto.
  - destruct hi; [inversion H|].
    apply andb_true_iff in Hp. destruct Hp as [Ha _].
    inversion H; subst.
    change (c :: s0 ++ t) with ((c :: s0) ++ t). constructor; auto.
Qed.

(** A string that [fullmatch] accepts is in the language of the pattern. *)
Lemma fullmatch_matches (r : re) (s : str) :
  plain r = true -> fullmatch r s = true -> matches r s.
Proof.
  revert r. induction s as [|c s IH]; intros r Hp H; cbn [fullmatch] in H.
  - now apply nullable_matches.
  - apply deriv_matches; [exact Hp|]. apply IH; [|exact H].
    now apply plain_deriv.
Qed.

Lemma matches_cls_inv (p : ascii -> bool) (s : str) :
  matches (Cls p) s -> exists c, s = [c] /\ p c = true.
Proof. intros H. inversion H; subst. now exists c. Qed.

Lemma matches_rep_cls (p : ascii -> bool) (hi lo : nat) (s : str) :
  matches (Rep lo hi (Cls p)) s ->
  lo <= List.length s <= hi /\ forallb p s = true.
Proof.
  revert lo s. induction hi as [|hi IH]; intros lo s H.
  - inversion H; subst. cbn. split; [lia|reflexivity].
  - inversion H as [| | | | | | |hi0 a0|lo0 hi0 a0 s1 t1 Hs1 Ht1]; subst.
    + cbn. split; [lia|reflexivity].
    + apply matches_cls_inv in Hs1. destruct Hs1 as (c & -> & Hc).
      apply IH in Ht1. destruct Ht1 as [Hlen Hall].
      cbn [app List.length forallb]. rewrite Hc, Hall. split; [lia|reflexivity].
Qed.

Lemma matches_star_all (a : re) (P : ascii -> bool) (s : str) :
  (forall t, matches a t -> forallb P t = true) ->
  matches (Star a) s -> forallb P s = true.
Proof.
  intros Ha H. remember (Star a) as r eqn:Er.
  induction H; try discriminate.
  - reflexivity.
  - injection Er as ->. rewrite forallb_app, (Ha _ H). cbn [andb]. auto.
Qed.

Lemma matches_seq_inv (a b : re) (s : str) :
  matches (Seq a b) s ->
  exists s1 s2, s = s1 ++ s2 /\ matches a s1 /\ matches b s2.
Proof. intros H. inversion H; subst. now exists s0, t. Qed.

Lemma matches_alt_inv (a b : re) (s : str) :
  matches (Alt a b) s -> matches a s \/ matches b s.
Proof. intros H. inversion H; subst; [now left|now right]. Qed.

Lemma matches_cls_all (p : ascii -> bool) (t : str) :
  matches (Cls p) t -> forallb p t = true.
Proof.
  intros H. apply matches_cls_inv in H. destruct H as (c & -> & Hc).
  cbn. now rewrite Hc.
Qed.

Lemma matches_plus_cls (p : ascii -> bool) (s : str) :
  matches (Plus (Cls p)) s ->
  exists c r, s = c :: r /\ p c = true /\ forallb p r = true.
Proof.
  intros H. apply matches_seq_inv in H.
  destruct H as (s1 & s2 & -> & H1 & H2).
  apply matches_cls_inv in H1. destruct H1 as (c & -> & Hc).
  exists c, s2. repeat split; [exact Hc|].
  apply (matches_star_all (Cls p)); [apply matches_cls_all|exact H2].
Qed.

Lemma heading_case_shape (q : ascii -> bool) (s : str) :
  matches (Seq (Cls is_AZ) (Rep 4 40 (Cls q))) s ->
  exists c r, s = c :: r /\ is_AZ c = true
              /\ 4 <= List.length r <= 40 /\ forallb q r = true.
Proof.
  intros H. apply matches_seq_inv in H.
  destruct H as (s1 & s2 & -> & H1 & H2).
  apply matches_cls_inv in H1. destruct H1 as (c & -> & Hc).
  apply matches_rep_cls in H2. destruct H2 as [Hlen Hall].
  now exists c, s2.
Qed.

Lemma forallb_weaken {A : Type} (p q : A -> bool) (l : list A) :
  (forall x, p x = true -> q x = true) ->
  forallb p l = true -> forallb q l = true.
Proof.
  intros Hpq H. apply forallb_forall. intros x Hx. apply Hpq.
  rewrite forallb_forall in H. now apply H.
Qed.

Ltac by_cases_on_ascii c :=
  destruct c as [[] [] [] [] [] [] [] []]; vm_compute;
  try reflexivity; try discriminate; auto.

Lemma heading_char_not_term (c : ascii) :
  heading_char c = true -> is_term c = false.
Proof. by_cases_on_ascii c. Qed.

Lemma caps_is_heading_char (c : ascii) :
  is_AZ c || is_space c = true -> heading_char c = true.
Proof. by_cases_on_ascii c. Qed.

Lemma AZ_is_heading_char (c : ascii) : is_AZ c = true -> heading_char c = true.
Proof. by_cases_on_ascii c. Qed.

Lemma digit_not_AZ (c : ascii) : is_digit c = true -> is_AZ c = false.
Proof. by_cases_on_ascii c. Qed.

Lemma number_char_is_line_char (c : ascii) :
  is_digit c || is_char 46 c || is_space c = true -> heading_line_char c = true.
Proof. by_cases_on_ascii c. Qed.

(** A string in the language of the heading pattern starts with a capital
    letter followed by 4 to 40 heading characters, or with a digit, later a
    capital letter followed by 4 to 40 heading characters. *)
Lemma heading_body_shape (s : str) :
  matches heading_body s ->
  (exists c r, s = c :: r /\ is_AZ c = true
               /\ 4 <= List.length r <= 40 /\ forallb heading_char r = true)
  \/ (exists d pre c r,
         s = d :: pre ++ c :: r /\ is_digit d = true
         /\ pre <> []
         /\ forallb (fun x => is_digit x || is_char 46 x || is_space x) pre = true
         /\ is_AZ c = true
         /\ 4 <= List.length r <= 40 /\ forallb heading_char r = true).
Proof.
  intros H. apply matches_alt_inv in H. destruct H as [H|H].
  { left. now apply heading_case_shape. }
  apply matches_alt_inv in H. destruct H as [H|H].
  { left. apply heading_case_shape in H.
    destruct H as (c & r & -> & Hc & Hlen & Hall).
    exists c, r. repeat split; try assumption; try lia.
    revert Hall. apply forallb_weaken. intros x. apply caps_is_heading_char. }
  right. unfold heading_numbered in H.
  apply matches_seq_inv in H. destruct H as (n & s1 & -> & Hn & H).
  apply matches_seq_inv in H. destruct H as (g & s2 & -> & Hg & H).
  apply matches_seq_inv in H. destruct H as (w & s3 & -> & Hw & H).
  apply heading_case_shape in H. destruct H as (c & r & -> & Hc & Hlen & Hall).
  apply matches_plus_cls in Hn. destruct Hn as (d & ds & -> & Hd & Hds).
  apply matches_plus_cls in Hw. destruct Hw as (w0 & ws & -> & Hw0 & Hws).
  assert (Hgall : forallb (fun x => is_digit x || is_char 46 x || is_space x) g = true).
  { apply (matches_star_all (Seq (Cls (is_char 46)) (Plus (Cls is_digit))));
      [|exact Hg].
    intros t Ht. apply matches_seq_inv in Ht.
    destruct Ht as (t1 & t2 & -> & Ht1 & Ht2).
    apply matches_cls_inv in Ht1. destruct Ht1 as (dot & -> & Hdot).
    apply matches_plus_cls in Ht2. destruct Ht2 as (e & es & -> & He & Hes).
    cbn [app forallb]. rewrite Hdot, He, orb_true_r. cbn [orb andb].
    revert Hes. apply forallb_weaken. now intros x ->. }
  exists d, (ds ++ g ++ w0 :: ws), c, r.
  repeat split; try assumption; try lia.
  - cbn [app]. now rewrite <- !app_assoc.
  - intros E. apply app_eq_nil in E. destruct E as [_ E].
    apply app_eq_nil in E. destruct E as [_ E]. discriminate E.
  - rewrite !forallb_app. cbn [forallb].
    rewrite Hgall, Hw0, !orb_true_r. cbn [andb].
    assert (Hds' : forallb (fun x => is_digit x || is_char 46 x || is_space x) ds
                   = true)
      by (revert Hds; apply forallb_weaken; now intros x ->).
    assert (Hws' : forallb (fun x => is_digit x || is_char 46 x || is_space x) ws
                   = true)
      by (revert Hws; apply forallb_weaken; intros x ->; now rewrite orb_true_r).
    now rewrite Hds', Hws'.
Qed.

Lemma heading_body_plain : plain heading_body = true.
Proof. reflexivity. Qed.

Lemma endswith_term_tail (pre r : str) :
  r <> [] -> forallb heading_char r = true -> endswith_term (pre ++ r) = false.
Proof.
  intros Hne Hall. destruct (exists_last Hne) as (r' & x & ->).
  unfold endswith_term. rewrite !rev_app_distr. cbn [rev app].
  apply heading_char_not_term.
  rewrite forallb_app in Hall. apply andb_true_iff in Hall.
  destruct Hall as [_ Hx]. cbn in Hx. now rewrite andb_true_r in Hx.
Qed.

(** X6.  The negative lookbehind of [STRICT_HEADING_REGEX] never decides:
    whatever the three alternatives accept ends in a heading character, so
    not in ['.'], ['?'] or ['!']. *)
Theorem heading_lookbehind_never_rejects (line : str) :
  STRICT_HEADING_REGEX line = fullmatch heading_body line.
Proof.
  unfold STRICT_HEADING_REGEX. fold heading_body.
  destruct (fullmatch heading_body line) eqn:E; [|reflexivity].
  apply (fullmatch_matches _ _ heading_body_plain) in E.
  apply heading_body_shape in E.
  destruct E as [(c & r & -> & _ & Hlen & Hall)
                |(d & pre & c & r & -> & _ & _ & _ & _ & Hlen & Hall)].
  - change (c :: r) with ([c] ++ r).
    rewrite (endswith_term_tail [c] r); [reflexivity| |exact Hall].
    intros ->. cbn in Hlen. lia.
  - replace (d :: pre ++ c :: r) with ((d :: pre ++ [c]) ++ r)
      by (cbn [app]; now rewrite <- app_assoc).
    rewrite (endswith_term_tail _ r); [reflexivity| |exact Hall].
    intros ->. cbn in Hlen. lia.
Qed.

(** X7.  A line that [STRICT_HEADING_REGEX] accepts has at least 5
    characters, all of them heading characters or dots.  When it starts with
    a capital letter it has at most 41 characters and no dot; otherwise it
    starts with a digit and has at least 7 characters. *)
Theorem heading_line_shape (line : str)
  (Hacc : STRICT_HEADING_REGEX line = true) :
  5 <= List.length line
  /\ forallb heading_line_char line = true
  /\ exists c r, line = c :: r
       /\ ((is_AZ c = true /\ List.length line <= 41
            /\ forallb heading_char line = true)
           \/ (is_digit c = true /\ is_AZ c = false /\ 7 <= List.length line)).
Proof.
  unfold STRICT_HEADING_REGEX in Hacc. fold heading_body in Hacc.
  apply andb_true_iff in Hacc. destruct Hacc as [Hacc _].
  apply (fullmatch_matches _ _ heading_body_plain) in Hacc.
  apply heading_body_shape in Hacc.
  destruct Hacc as [(c & r & -> & Hc & Hlen & Hall)
                   |(d & pre & c & r & -> & Hd & Hpre & Hprech & Hc & Hlen & Hall)].
  - assert (Hline : forallb heading_char (c :: r) = true)
      by (cbn [forallb]; now rewrite (AZ_is_heading_char c Hc), Hall).
    split; [cbn [List.length]; lia|]. split.
    + revert Hline. apply forallb_weaken. unfold heading_line_char.
      now intros x ->.
    + exists c, r. split; [reflexivity|]. left.
      split; [exact Hc|]. split; [cbn [List.length]; lia|exact Hline].
  - assert (Hp : 1 <= List.length pre) by (destruct pre; [congruence|cbn; lia]).
    assert (Hlen' : 7 <= List.length (d :: pre ++ c :: r))
      by (cbn [List.length]; rewrite length_app; cbn [List.length]; lia).
    split; [lia|]. split.
    + cbn [forallb]. rewrite forallb_app. cbn [forallb].
      rewrite (number_char_is_line_char d) by now rewrite Hd.
      rewrite (forallb_weaken _ _ _ number_char_is_line_char Hprech).
      unfold heading_line_char at 1. rewrite (AZ_is_heading_char c Hc).
      cbn [orb andb]. revert Hall. apply forallb_weaken.
      unfold heading_line_char. now intros x ->.
    + exists d, (pre ++ c :: r). split; [reflexivity|]. right.
      split; [exact Hd|]. split; [now apply digit_not_AZ|exact Hlen'].
Qed.

(** The shortest heading, the longest un-numbered one, and a numbered one. *)
Lemma heading_line_shape_witness :
  5 <= List.length (lit "Intro")
  /\ 5 <= List.length (lit "A" ++ chars 40 "b")
  /\ 7 <= List.length (lit "1.2 Scope")
  /\ STRICT_HEADING_REGEX (lit "A" ++ chars 41 "b") = false.
Proof.
  split; [exact (proj1 (heading_line_shape (lit "Intro") eq_refl))|].
  split; [exact (proj1 (heading_line_shape (lit "A" ++ chars 40 "b") eq_refl))|].
  split; [|reflexivity].
  destruct (heading_line_shape (lit "1.2 Scope") eq_refl)
    as (_ & _ & c & r & E & [(Hc & _)|(_ & _ & H)]); [|exact H].
  injection E as <- _. discriminate Hc.
Defined.

(** * The title-field check: which titles can pass *)

Lemma title_tail_space (c : ascii) : is_space c = true -> title_tail_char c = true.
Proof. by_cases_on_ascii c. Qed.

Lemma title_pattern_shape (s : str) :
  matches title_pattern s ->
  exists c r, s = c :: r /\ is_AZ c = true
    /\ (forallb title_tail_char r = true
        \/ forallb (fun x => is_AZ x || is_space x) r = true).
Proof.
  intros H. apply matches_alt_inv in H.
  destruct H as [H|H]; apply matches_seq_inv in H;
    destruct H as (s1 & s2 & -> & H1 & H2);
    apply matches_cls_inv in H1; destruct H1 as (c & -> & Hc);
    exists c, s2; (split; [reflexivity|]); (split; [exact Hc|]).
  - left. apply (matches_star_all (Cls title_tail_char)); [|exact H2].
    apply matches_cls_all.
  - right. apply (matches_star_all (Cls (fun x => is_AZ x || is_space x)));
      [|exact H2].
    apply matches_cls_all.
Qed.

(** X8.  A title that the title-field check of
    [meaningful_title] accepts starts with a capital letter; what follows
    holds either no capital letter (only lowercase letters, digits,
    whitespace and the punctuation of the pattern) or nothing but capital
    letters and whitespace.  A title with a second capital and a lowercase
    letter is never taken from the title field. *)
Theorem accepted_title_shape (t : str)
  (Hacc : title_field_ok t = true) :
  exists c r, t = c :: r /\ is_AZ c = true
    /\ (forallb title_tail_char r = true
        \/ forallb (fun x => is_AZ x || is_space x) r = true).
Proof.
  apply title_field_ok_spec in Hacc. destruct Hacc as (_ & Hm & _).
  unfold match_anchored in Hm. apply orb_true_iff in Hm.
  destruct Hm as [Hm|Hm].
  - apply title_pattern_shape. now apply fullmatch_matches.
  - destruct (rev t) as [|x u] eqn:Er; [discriminate|].
    apply andb_true_iff in Hm. destruct Hm as [Hx Hm].
    apply Ascii.eqb_eq in Hx. subst x.
    apply fullmatch_matches in Hm; [|reflexivity].
    apply title_pattern_shape in Hm.
    destruct Hm as (c & r & E & Hc & Hr).
    assert (Et : t = c :: r ++ [nl]).
    { rewrite <- (rev_involutive t), Er. cbn [rev]. now rewrite E. }
    exists c, (r ++ [nl]). split; [exact Et|]. split; [exact Hc|].
    rewrite !forallb_app. cbn [forallb].
    destruct Hr as [Hr|Hr]; rewrite Hr; [left|right]; reflexivity.
Qed.

Lemma accepted_title_shape_witness :
  title_field_ok (lit "Top ten things to do in Paris") = false
  /\ exists c r, lit "Top ten things to do in town" = c :: r /\ is_AZ c = true
       /\ (forallb title_tail_char r = true
           \/ forallb (fun x => is_AZ x || is_space x) r = true).
Proof.
  split; [reflexivity|].
  exact (accepted_title_shape (lit "Top ten things to do in town") eq_refl).
Defined.

(** * The title-field check and titles in Title Case *)

Lemma split_ws_aux_concat (s cur : str) :
  List.concat (split_ws_aux cur s)
  = rev cur ++ filter (fun c => negb (is_space c)) s.
Proof.
  revert cur. induction s as [|c s IH]; intros cur.
  - destruct cur; cbn [split_ws_aux List.concat filter];
      now rewrite ?app_nil_r.
  - cbn [split_ws_aux filter]. destruct (is_space c); cbn [negb].
    + destruct cur as [|d cur].
      * apply IH.
      * cbn [List.concat]. now rewrite IH.
    + rewrite IH. cbn [rev]. now rewrite <- app_assoc.
Qed.

Lemma split_ws_concat (s : str) :
  List.concat (split_ws s) = filter (fun c => negb (is_space c)) s.
Proof. apply split_ws_aux_concat. Qed.

Lemma AZ_not_space (c : ascii) : is_AZ c = true -> is_space c = false.
Proof. by_cases_on_ascii c. Qed.

Lemma title_tail_not_AZ (c : ascii) : title_tail_char c = true -> is_AZ c = false.
Proof. by_cases_on_ascii c. Qed.

Lemma caps_not_az (c : ascii) : is_AZ c || is_space c = true -> is_az c = false.
Proof. by_cases_on_ascii c. Qed.

Lemma forallb_filter {A : Type} (P Q : A -> bool) (l : list A) :
  forallb P l = true -> forallb P (filter Q l) = true.
Proof.
  rewrite !forallb_forall. intros H x Hx. apply H.
  apply filter_In in Hx. tauto.
Qed.

Lemma match_anchored_title_shape (t : str) :
  match_anchored title_pattern t = true ->
  exists c r, t = c :: r /\ is_AZ c = true
    /\ (forallb title_tail_char r = true
        \/ forallb (fun x => is_AZ x || is_space x) r = true).
Proof.
  unfold match_anchored. intros Hm. apply orb_true_iff in Hm.
  destruct Hm as [Hm|Hm].
  - apply title_pattern_shape. now apply fullmatch_matches.
  - destruct (rev t) as [|x u] eqn:Er; [discriminate|].
    apply andb_true_iff in Hm. destruct Hm as [Hx Hm].
    apply Ascii.eqb_eq in Hx. subst x.
    apply fullmatch_matches in Hm; [|reflexivity].
    apply title_pattern_shape in Hm.
    destruct Hm as (c & r & E & Hc & Hr).
    exists c, (r ++ [nl]). split.
    + rewrite <- (rev_involutive t), Er. cbn [rev]. now rewrite E.
    + split; [exact Hc|]. rewrite !forallb_app. cbn [forallb].
      destruct Hr as [Hr|Hr]; rewrite Hr; [left|right]; reflexivity.
Qed.

(** The pattern of the title field admits no title in Title Case that has
    two or more words. *)
Lemma title_case_not_matched (t : str) :
  2 <= word_count t ->
  title_case t = true ->
  match_anchored title_pattern t = false.
Proof.
  intros Hwc Htc. destruct (match_anchored title_pattern t) eqn:Hm; [|reflexivity].
  exfalso. apply match_anchored_title_shape in Hm.
  destruct Hm as (c & r & -> & Hc & Hr).
  unfold title_case in Htc. apply andb_true_iff in Htc.
  destruct Htc as [Hall Hlong].
  pose proof (split_ws_concat (c :: r)) as Econ.
  cbn [filter] in Econ. rewrite (AZ_not_space c Hc) in Econ. cbn [negb] in Econ.
  unfold word_count in Hwc.
  destruct Hr as [Hr|Hr].
  - (* no capital after the first character: the second word has one *)
    destruct (split_ws (c :: r)) as [|w1 [|w2 ws]];
      [cbn in Hwc; lia | cbn in Hwc; lia |].
    cbn [forallb] in Hall.
    apply andb_true_iff in Hall. destruct Hall as [H1 Hall].
    apply andb_true_iff in Hall. destruct Hall as [H2 _].
    destruct w1 as [|c1 r1]; [discriminate H1|].
    destruct w2 as [|c2 r2]; [discriminate H2|].
    cbn [title_case_word] in H2. apply andb_true_iff in H2. destruct H2 as [H2 _].
    cbn [List.concat app] in Econ. injection Econ as _ Econ.
    assert (Hin : In c2 (filter (fun x => negb (is_space x)) r)).
    { rewrite <- Econ. apply in_or_app. right. now left. }
    apply (forallb_filter _ (fun x => negb (is_space x))) in Hr.
    rewrite forallb_forall in Hr. apply Hr in Hin.
    apply title_tail_not_AZ in Hin. congruence.
  - (* capitals and white space only: the longer word has a lowercase letter *)
    apply existsb_exists in Hlong. destruct Hlong as (w & Hw & Hlen).
    apply Nat.ltb_lt in Hlen.
    rewrite forallb_forall in Hall. specialize (Hall w Hw).
    destruct w as [|c1 [|c2 r2]]; [discriminate Hall | cbn in Hlen; lia |].
    cbn [title_case_word forallb] in Hall.
    apply andb_true_iff in Hall. destruct Hall as [_ Hall].
    apply andb_true_iff in Hall. destruct Hall as [H2 _].
    assert (Hin : In c2 (c :: filter (fun x => negb (is_space x)) r)).
    { rewrite <- Econ. apply in_concat. exists (c1 :: c2 :: r2).
      split; [exact Hw|]. right. now left. }
    destruct Hin as [<-|Hin].
    + assert (is_az c = false) by (apply caps_not_az; now rewrite Hc).
      congruence.
    + apply (forallb_filter _ (fun x => negb (is_space x))) in Hr.
      rewrite forallb_forall in Hr. apply Hr in Hin.
      apply caps_not_az in Hin. congruence.
Qed.

(** C9.  A title in Title Case is not taken from the title field, although
    it meets what the claim asks of it: for every section whose stripped
    title has more than 5 and fewer than 25 words, all of them in Title
    Case, and does not end in ['.'], ['!'] or ['?'], the title-field check
    fails and [meaningful_title] returns what it computes from the content.
    The pattern of the check admits, after the first capital, either no
    capital at all or nothing but capitals and white space.  So the section
    that [split_into_sections] makes of a page headed Guide To The Best
    Local Restaurants (a heading that the heading pattern of the builder
    accepts) gets that heading run together with its first sentence as its
    title.  A section titled INTRODUCTION (one word) is rejected by the
    check as the claim says, whatever its content. *)
Theorem C9_title_case_title_rejected :
  (forall s : section,
     let t := strip (title s) in
     5 < word_count t < 25 ->
     title_case t = true ->
     endswith_term t = false ->
     title_field_ok t = false
     /\ meaningful_title s = title_from_content s)
  /\ (split_into_sections [page_guide] = [section_guide]
      /\ STRICT_HEADING_REGEX (title section_guide) = true
      /\ meaningful_title section_guide
         = lit "Guide To The Best Local Restaurants Try the seafood by the harbour."
      /\ meaningful_title section_guide <> strip (title section_guide))
  /\ (forall (c : str) (p : Z) (d : str),
        word_count (strip (lit "INTRODUCTION")) = 1
        /\ meaningful_title (mkSection (lit "INTRODUCTION") c p d)
           = title_from_content (mkSection (lit "INTRODUCTION") c p d))
  /\ meaningful_title section_introduction
     = lit "Information from Page 4 of guide".
Proof.
  split; [|split; [|split]]; [| | |vm_compute; reflexivity].
  - intros s t Hwc Htc _.
    assert (Hm : match_anchored title_pattern t = false)
      by (apply title_case_not_matched; [lia|exact Htc]).
    assert (Hok : title_field_ok t = false).
    { unfold title_field_ok. rewrite Hm.
      now rewrite andb_false_r. }
    split; [exact Hok|].
    unfold meaningful_title. fold t. now rewrite Hok.
  - assert (Et : meaningful_title section_guide
                 = lit "Guide To The Best Local Restaurants Try the seafood by the harbour.")
      by (vm_compute; reflexivity).
    split; [vm_compute; reflexivity|].
    split; [vm_compute; reflexivity|].
    split; [exact Et|].
    rewrite Et. intros E. apply (f_equal (@List.length ascii)) in E.
    vm_compute in E. discriminate E.
  - intros c p d. split; reflexivity.
Qed.

(** The section of the guide page meets the three conditions of the claim
    and is not given its own title. *)
Lemma C9_title_case_witness :
  5 < word_count (strip (title section_guide)) < 25
  /\ title_case (strip (title section_guide)) = true
  /\ endswith_term (strip (title section_guide)) = false
  /\ title_field_ok (strip (title section_guide)) = false
  /\ meaningful_title section_guide = title_from_content section_guide.
Proof.
  assert (Hwc : 5 < word_count (strip (title section_guide)) < 25)
    by (vm_compute; lia).
  assert (Htc : title_case (strip (title section_guide)) = true)
    by (vm_compute; reflexivity).
  assert (Hend : endswith_term (strip (title section_guide)) = false)
    by (vm_compute; reflexivity).
  split; [exact Hwc|]. split; [exact Htc|]. split; [exact Hend|].
  exact (proj1 C9_title_case_title_rejected section_guide Hwc Htc Hend).
Defined.

(** * The classifier: which themes it can return *)

Lemma first_category_In (table : list (theme * list str)) (text : str) (c : theme) :
  first_category table text = Some c -> In c (map fst table).
Proof.
  induction table as [|[category keywords] rest IH]; [discriminate|].
  cbn [first_category map fst]. destruct (existsb _ keywords).
  - intros E. injection E as <-. now left.
  - intros E. right. now apply IH.
Qed.

Lemma classify_not_supplemental (persona : str) (s : section) :
  classify persona s <> supplemental_info.
Proof.
  unfold classify.
  destruct (first_category _ _) as [c|] eqn:E.
  - apply first_category_In in E. intros ->. cbn in E. intuition discriminate.
  - destruct (is_travel_planner persona); [|discriminate].
    repeat match goal with
           | |- context [if any_in ?k ?t then _ else _] => destruct (any_in k t)
           end; discriminate.
Qed.

(** X9.  For a persona without the travel-planner
    marker the theme is one of the nine general categories or
    other_general; with the marker the five travel themes are possible too.
    No section is ever classified supplemental_info. *)
Theorem classify_range (persona : str) (s : section) :
  (if is_travel_planner persona
   then In (classify persona s) (general_themes ++ travel_themes ++ [other_general])
   else In (classify persona s) (general_themes ++ [other_general]))
  /\ classify persona s <> supplemental_info.
Proof.
  assert (Hgen : forall c text,
             first_category GENERAL_CATEGORIES_KEYWORDS text = Some c ->
             In c general_themes).
  { intros c text E. apply first_category_In in E. exact E. }
  unfold classify.
  destruct (first_category _ _) as [c|] eqn:E.
  - apply Hgen in E. split.
    + destruct (is_travel_planner persona); apply in_or_app; now left.
    + intros ->. cbn in E. intuition discriminate.
  - destruct (is_travel_planner persona).
    + repeat match goal with
             | |- context [if any_in ?k ?t then _ else _] => destruct (any_in k t)
             end;
      (split; [cbn; tauto|discriminate]).
    + split; [cbn; tauto|discriminate].
Qed.

(** * The selector: further properties *)

Lemma theme_beq_eq (x y : theme) : theme_beq x y = true <-> x = y.
Proof.
  split; [apply internal_theme_dec_bl|apply internal_theme_dec_lb].
Qed.

Lemma id_mem_In (i : identifier) (ids : list identifier) :
  id_mem i ids = true <-> In i ids.
Proof.
  unfold id_mem. rewrite existsb_exists. split.
  - intros (j & Hj & E). apply identifier_eqb_eq in E. now subst.
  - intros H. exists i. split; [exact H|apply identifier_eqb_refl].
Qed.

Section ScanFacts.

Variable hash : str -> Z.
Variable persona : str.
Variable ids : list identifier.
Variable t : theme.

Lemma scan_step_inv (seen : list candidate) (st : scan_state) (r : candidate) :
  scan_inv hash persona ids t seen st -> scan_inv hash persona ids t (seen ++ [r]) (scan_step hash persona ids t st r).
Proof.
  unfold scan_inv. intros H. destruct r as [sec score].
  unfold scan_step. fold (sec_identifier_of hash sec).
  change (negb (id_mem (sec_identifier_of hash sec) ids)
          && theme_beq (classify persona sec) t)
    with (eligible hash persona ids t (sec, score)).
  destruct (eligible hash persona ids t (sec, score)) eqn:El.
  - destruct (best_sec_for_theme st) as [b|] eqn:Eb.
    + destruct H as (Hin & Hel & Hsc & Hall).
      destruct (_ || _) eqn:Etake; cbn [best_sec_for_theme best_score_for_theme].
      * assert (Hle : (snd b <= score)%Q).
        { apply orb_true_iff in Etake. destruct Etake as [Hlt|Heq].
          - rewrite Hsc in Hlt. now apply Qlt_bool_true.
          - apply andb_true_iff in Heq. destruct Heq as [Heq _].
            apply Qeq_bool_iff in Heq. rewrite Hsc in Heq.
            rewrite Heq. apply Qle_refl. }
        repeat split.
        -- apply in_or_app. right. now left.
        -- exact El.
        -- apply Forall_app. split.
           ++ apply (Forall_impl _ (P := fun r => eligible hash persona ids t r = true ->
                                                  (snd r <= snd b)%Q)); [|exact Hall].
              intros x Hx Hex. cbn [snd]. apply (Qle_trans _ (snd b)); auto.
           ++ constructor; [|constructor]. intros _. apply Qle_refl.
      * repeat split; try assumption.
        -- apply in_or_app. now left.
        -- apply Forall_app. split; [exact Hall|].
           constructor; [|constructor]. intros _. cbn [snd].
           apply orb_false_iff in Etake. destruct Etake as [Hlt _].
           rewrite Hsc in Hlt. now apply Qlt_bool_false.
    + cbn [best_sec_for_theme best_score_for_theme]. repeat split.
      * apply in_or_app. right. now left.
      * exact El.
      * apply Forall_forall. intros x Hx Hex. apply in_app_or in Hx.
        destruct Hx as [Hx|[<-|[]]]; [|apply Qle_refl].
        rewrite forallb_forall in H. specialize (H x Hx).
        rewrite Hex in H. discriminate H.
  - cbn [best_sec_for_theme best_score_for_theme].
    destruct (best_sec_for_theme st) as [b|] eqn:Eb.
    + destruct H as (Hin & Hel & Hsc & Hall). repeat split; try assumption.
      * apply in_or_app. now left.
      * apply Forall_app. split; [exact Hall|].
        constructor; [|constructor]. intros Hex. congruence.
    + rewrite forallb_app, H. cbn [forallb]. now rewrite El.
Qed.

Lemma scan_fold_inv (results seen : list candidate) (st : scan_state) :
  scan_inv hash persona ids t seen st ->
  scan_inv hash persona ids t (seen ++ results) (fold_left (scan_step hash persona ids t) results st).
Proof.
  revert seen st. induction results as [|r results IH]; intros seen st H.
  - now rewrite app_nil_r.
  - cbn [fold_left].
    replace (seen ++ r :: results) with ((seen ++ [r]) ++ results)
      by now rewrite <- app_assoc.
    apply IH. now apply scan_step_inv.
Qed.

End ScanFacts.

Lemma scan_best_in_pool
  (hash : str -> Z) (persona : str) (results : list candidate)
  (ids : list identifier) (t : theme) (sid : option identifier) (b : candidate) :
  best_sec_for_theme (scan hash persona results ids t sid) = Some b ->
  In b results /\ classify persona (fst b) = t.
Proof.
  intros E.
  pose proof (scan_fold_inv hash persona ids t results []
                            (mkScan None (-1)%Q sid)) as H.
  unfold scan_inv in H. cbn [app] in H. unfold scan in E. rewrite E in H.
  destruct H as (Hin & Hel & _); [reflexivity|].
  unfold eligible in Hel. apply andb_true_iff in Hel. destruct Hel as [_ Ht].
  apply theme_beq_eq in Ht. now split.
Qed.

(** X10.  The scan of pass 1 for a theme returns an
    entry of the pool that has this theme and whose identifier is not
    recorded, with a score no lower than that of any other such entry; it
    returns nothing exactly when the pool has no such entry. *)
Theorem scan_returns_a_best_entry
  (hash : str -> Z) (persona : str) (results : list candidate)
  (ids : list identifier) (t : theme) (sid : option identifier) :
  match best_sec_for_theme (scan hash persona results ids t sid) with
  | Some b =>
      In b results
      /\ id_mem (sec_identifier_of hash (fst b)) ids = false
      /\ classify persona (fst b) = t
      /\ Forall (fun r => eligible hash persona ids t r = true ->
                          (snd r <= snd b)%Q) results
  | None => forallb (fun r => negb (eligible hash persona ids t r)) results = true
  end.
Proof.
  pose proof (scan_fold_inv hash persona ids t results []
                            (mkScan None (-1)%Q sid)) as H.
  unfold scan_inv in H. cbn [app] in H. unfold scan.
  destruct (best_sec_for_theme (fold_left _ results _)) as [b|].
  - destruct H as (Hin & Hel & _ & Hall); [reflexivity|].
    unfold eligible in Hel. apply andb_true_iff in Hel. destruct Hel as [Hm Ht].
    apply negb_true_iff in Hm. apply theme_beq_eq in Ht. now repeat split.
  - now apply H.
Qed.

(** ** Pass 1: one pick per theme, in priority order *)

Lemma select_by_flags_incl {A : Type} (l : list A) (flags : list bool) :
  incl (select_by_flags l flags) l.
Proof.
  revert flags. induction l as [|x l IH]; intros flags; [destruct flags; intros y []|].
  destruct flags as [|[] flags]; cbn [select_by_flags].
  - intros y [].
  - intros y [<-|Hy]; [now left|right; now apply (IH flags)].
  - intros y Hy. right. now apply (IH flags).
Qed.

Lemma select_by_flags_NoDup {A : Type} (l : list A) (flags : list bool) :
  NoDup l -> NoDup (select_by_flags l flags).
Proof.
  revert flags. induction l as [|x l IH]; intros flags H;
    [destruct flags; constructor|].
  apply NoDup_cons_iff in H. destruct H as [Hx Hl].
  destruct flags as [|[] flags]; cbn [select_by_flags].
  - constructor.
  - constructor; [|now apply IH].
    intros Hin. apply Hx. now apply (select_by_flags_incl l flags).
  - now apply IH.
Qed.

Lemma pass1_themes (hash : str -> Z) (persona : str) (max_count : Z)
      (results : list candidate) (themes : list theme)
      (chosen : list candidate) (ids : list identifier) (sid : option identifier) :
  exists flags,
    map (fun c => classify persona (fst c))
        (fst (fst (pass1 hash persona max_count results themes (chosen, ids, sid))))
    = map (fun c => classify persona (fst c)) chosen ++ select_by_flags themes flags.
Proof.
  revert chosen ids sid.
  induction themes as [|t themes IH]; intros chosen ids sid.
  - exists []. cbn. now rewrite app_nil_r.
  - cbn [pass1]. destruct (at_capacity max_count chosen).
    + exists []. cbn. now rewrite app_nil_r.
    + pose proof (scan_best_in_pool hash persona results ids t sid) as Hb.
      destruct (best_sec_for_theme (scan hash persona results ids t sid))
        as [b|].
      * destruct (Hb b eq_refl) as (_ & Ht).
        destruct (IH (chosen ++ [b])
                     (add_sec_identifier
                        (sec_identifier (scan hash persona results ids t sid)) ids)
                     (sec_identifier (scan hash persona results ids t sid)))
          as (flags & Hf).
        exists (true :: flags). rewrite Hf, map_app. cbn [map select_by_flags].
        now rewrite Ht, <- app_assoc.
      * destruct (IH chosen ids
                     (sec_identifier (scan hash persona results ids t sid)))
          as (flags & Hf).
        exists (false :: flags). now rewrite Hf.
Qed.

Lemma priority_themes_cases (persona : str) :
  current_priority_themes persona = DEFAULT_STRICT_PRIORITY_THEMES
  \/ current_priority_themes persona
     = [travel_cities; travel_activities; travel_food; travel_accommodation;
        travel_tips_practical; methods_procedures_steps;
        recommendations_solutions; results_findings_data;
        key_concepts_definitions; examples_applications; introduction_overview;
        conclusion_summary; supplemental_info; other_general].
Proof.
  unfold current_priority_themes.
  destruct (is_travel_planner persona); [right|left]; reflexivity.
Qed.

Lemma distinct_themes_NoDup (l : list theme) :
  distinct_themes l = true -> NoDup l.
Proof.
  induction l as [|x l IH]; [constructor|].
  cbn [distinct_themes]. intros H. apply andb_true_iff in H.
  destruct H as [Hx Hl]. constructor; [|now apply IH].
  intros Hin. apply negb_true_iff in Hx. unfold theme_in in Hx.
  assert (Hex : existsb (theme_beq x) l = true).
  { apply existsb_exists. exists x. split; [exact Hin|]. now apply theme_beq_eq. }
  congruence.
Qed.

Lemma priority_themes_facts (persona : str) :
  NoDup (current_priority_themes persona)
  /\ Permutation DEFAULT_STRICT_PRIORITY_THEMES (current_priority_themes persona)
  /\ ~ In contact_information (current_priority_themes persona)
  /\ ~ In appendix_references (current_priority_themes persona).
Proof.
  destruct (priority_themes_cases persona) as [E|E]; rewrite E.
  - split; [now apply distinct_themes_NoDup|]. split; [reflexivity|].
    split; cbn; intuition discriminate.
  - split; [now apply distinct_themes_NoDup|]. split.
    + unfold DEFAULT_STRICT_PRIORITY_THEMES.
      apply Permutation_sym.
      do 5 (apply Permutation_cons_app with (l1 := [_; _; _; _; _; _; _]);
            cbn [app]).
      reflexivity.
    + split; cbn; intuition discriminate.
Qed.

Lemma select_by_flags_length {A : Type} (l : list A) (flags : list bool) :
  List.length (select_by_flags l flags) <= List.length l.
Proof.
  revert flags. induction l as [|x l IH]; intros flags; [destruct flags; cbn; lia|].
  destruct flags as [|[] flags]; cbn [select_by_flags List.length];
    try specialize (IH flags); lia.
Qed.

(** X11.  The themes of the sections that pass 1 picks are entries
    of the priority list, in the order of that list and each at most once:
    at most 14 sections, none of them classified contact_information,
    appendix_references or supplemental_info. *)
Theorem pass1_picks_follow_priority
  (hash : str -> Z) (persona : str) (max_count : Z) (results : list candidate) :
  let picked := chosen_after_pass1 hash persona max_count results in
  let themes := map (fun c => classify persona (fst c)) picked in
  (exists flags, themes = select_by_flags (current_priority_themes persona) flags)
  /\ NoDup themes
  /\ List.length picked <= 14
  /\ ~ In contact_information themes
  /\ ~ In appendix_references themes
  /\ ~ In supplemental_info themes.
Proof.
  intros picked themes.
  destruct (pass1_themes hash persona max_count results
                         (current_priority_themes persona) [] [] None)
    as (flags & Hf).
  cbn [map app] in Hf. fold (chosen_after_pass1 hash persona max_count results) in Hf.
  fold picked in Hf. fold themes in Hf.
  destruct (priority_themes_facts persona) as (Hnd & Hperm & Hc & Ha).
  assert (Hincl : incl themes (current_priority_themes persona))
    by (rewrite Hf; apply select_by_flags_incl).
  split; [now exists flags|]. split; [rewrite Hf; now apply select_by_flags_NoDup|].
  split.
  - assert (El : List.length picked = List.length themes)
      by (unfold themes; now rewrite length_map).
    rewrite El, Hf.
    etransitivity; [apply select_by_flags_length|].
    rewrite <- (Permutation_length Hperm). reflexivity.
  - split; [intros H; now apply Hc, Hincl|].
    split; [intros H; now apply Ha, Hincl|].
    intros H. unfold themes in H. apply in_map_iff in H.
    destruct H as (c & Hcl & _). now apply (classify_not_supplemental persona (fst c)).
Qed.

(** ** Pass 2: no identifier twice *)

Lemma pass2_loop_adds_new (hash : str -> Z) (max_count : Z)
      (sorted : list candidate) (chosen : list candidate) (ids : list identifier) :
  exists added,
    fst (pass2_loop hash max_count sorted (chosen, ids)) = chosen ++ added
    /\ incl added sorted
    /\ NoDup (identifiers hash added)
    /\ Forall (fun c => ~ In (sec_identifier_of hash (fst c)) ids) added.
Proof.
  revert chosen ids.
  induction sorted as [|[sec score] sorted IH]; intros chosen ids.
  - exists []. cbn. rewrite app_nil_r.
      split; [reflexivity|]. split; [intros x []|]. split; constructor.
  - cbn [pass2_loop]. destruct (at_capacity max_count chosen).
    + exists []. cbn. rewrite app_nil_r.
      split; [reflexivity|]. split; [intros x []|]. split; constructor.
    + destruct (id_mem (sec_identifier_of hash sec) ids) eqn:Em; cbn [negb].
      * destruct (IH chosen ids) as (added & E & Hincl & Hnd & Hall).
        exists added. repeat split; try assumption.
        intros x Hx. right. now apply Hincl.
      * destruct (IH (chosen ++ [(sec, score)]) (sec_identifier_of hash sec :: ids))
          as (added & E & Hincl & Hnd & Hall).
        exists ((sec, score) :: added). repeat split.
        -- rewrite E. now rewrite <- app_assoc.
        -- intros x [<-|Hx]; [now left|right; now apply Hincl].
        -- cbn [identifiers map fst]. constructor; [|exact Hnd].
           intros Hin. unfold identifiers in Hin. apply in_map_iff in Hin.
           destruct Hin as (c & Hc & Hcin).
           rewrite Forall_forall in Hall. apply (Hall c Hcin).
           left. now symmetry.
        -- constructor.
           ++ cbn [fst]. intros Hin. apply id_mem_In in Hin. congruence.
           ++ apply (Forall_impl _ (P := fun c => ~ In (sec_identifier_of hash (fst c))
                                                    (sec_identifier_of hash sec :: ids)));
                [|exact Hall].
              intros c Hc Hin. apply Hc. now right.
Qed.

(** X12.  Pass 2 appends to the picks of pass 1 entries of the pool
    with pairwise different identifiers. *)
Theorem pass2_appends_distinct_entries
  (hash : str -> Z) (persona : str) (max_count : Z) (results : list candidate) :
  exists added,
    chosen_after_pass2 hash persona max_count results
    = chosen_after_pass1 hash persona max_count results ++ added
    /\ incl added results
    /\ NoDup (identifiers hash added).
Proof.
  unfold chosen_after_pass2, chosen_after_pass1.
  destruct (pass1 hash persona max_count results
                  (current_priority_themes persona) ([], [], None))
    as [[chosen ids] sid].
  cbn [fst]. unfold pass2. cbn [fst].
  destruct (negb (at_capacity max_count chosen)).
  - destruct (pass2_loop_adds_new hash max_count (sorted_by_score results)
                                  chosen ids) as (added & E & Hincl & Hnd & _).
    exists added. repeat split; try assumption.
    intros x Hx.
    apply (Permutation_in x (Permutation_sym (sorted_by_score_perm results))).
    now apply Hincl.
  - exists []. cbn [fst]. rewrite app_nil_r.
    split; [reflexivity|]. split; [intros x []|constructor].
Qed.

(** ** The sort keeps entries of equal score in order *)

Lemma insert_by_score_with_score (q : Q) (x : candidate) (l : list candidate) :
  with_score q (insert_by_score x l) = with_score q (x :: l).
Proof.
  unfold with_score. induction l as [|y l IH]; [reflexivity|].
  cbn [insert_by_score]. destruct (Qlt_bool (snd x) (snd y)) eqn:Elt; [|reflexivity].
  cbn [filter] in *. rewrite IH.
  destruct (Qeq_bool (snd x) q) eqn:Ex; [|reflexivity].
  destruct (Qeq_bool (snd y) q) eqn:Ey; [|reflexivity].
  exfalso. apply Qeq_bool_iff in Ex, Ey.
  unfold Qlt_bool in Elt. apply negb_true_iff in Elt.
  assert (Hle : (snd y <= snd x)%Q) by (rewrite Ex, Ey; apply Qle_refl).
  apply Qle_bool_iff in Hle. congruence.
Qed.

(** X13.  Sorting by score leaves the entries of any one score
    in the order they had: ties are never reordered. *)
Theorem sorted_by_score_keeps_ties_in_order (q : Q) (l : list candidate) :
  with_score q (sorted_by_score l) = with_score q l.
Proof.
  induction l as [|x l IH]; [reflexivity|].
  cbn [sorted_by_score fold_right]. fold (sorted_by_score l).
  rewrite insert_by_score_with_score. unfold with_score in *. cbn [filter].
  now rewrite IH.
Qed.

(** ** Size of the result *)

Lemma final_chosen_length
  (hash : str -> Z) (search : list section -> str -> nat -> list candidate)
  (sections : list section) (persona job : str) (max_count : Z) :
  (Z.of_nat (List.length (final_chosen hash search sections persona job max_count))
   <= Z.max 0 max_count)%Z.
Proof.
  unfold final_chosen.
  destruct (filtered_sections sections); [cbn; lia|].
  apply select_bounded_subset.
Qed.

(** X14.  The selection never has more than [max_count] entries
    (none when [max_count] is zero or negative), holds only entries of the
    pool, and is empty for an empty pool; [rank_sections] returns as many
    entries in each list as the selection has. *)
Theorem selection_and_report_size
  (hash : str -> Z) (search : list section -> str -> nat -> list candidate)
  (sections : list section) (persona job : str) (max_count : Z)
  (results : list candidate) :
  (Z.of_nat (List.length (select hash persona max_count results))
   <= Z.max 0 max_count)%Z
  /\ incl (select hash persona max_count results) results
  /\ select hash persona max_count [] = []
  /\ select hash persona 0 results = []
  /\ (Z.of_nat (List.length (fst (rank_sections hash search sections persona job
                                                 max_count)))
      <= Z.max 0 max_count)%Z
  /\ (Z.of_nat (List.length (snd (rank_sections hash search sections persona job
                                                 max_count)))
      <= Z.max 0 max_count)%Z.
Proof.
  destruct (select_bounded_subset hash persona max_count results) as [Hlen Hincl].
  split; [exact Hlen|]. split; [exact Hincl|].
  split; [apply select_empty_pool|]. split; [apply select_max_zero|].
  rewrite rank_sections_present, present_maps. cbn [fst snd].
  rewrite !length_map, enumerate_length. unfold final_chosen.
  destruct (filtered_sections sections); [cbn; lia|].
  split; apply select_bounded_subset.
Qed.

(** * The presenter: the refined text *)

Lemma flatten_newlines_no_newline (s : str) : ~ In nl (flatten_newlines s).
Proof.
  unfold flatten_newlines. intros H. apply in_map_iff in H.
  destruct H as (c & Hc & _).
  destruct (Ascii.eqb c nl) eqn:E; [discriminate Hc|].
  apply Ascii.eqb_neq in E. now apply E.
Qed.

Lemma flatten_newlines_nonempty (s : str) : s <> [] -> flatten_newlines s <> [].
Proof. destruct s; [congruence|discriminate]. Qed.

Lemma nonempty_true (s : str) : nonempty s = true <-> s <> [].
Proof. destruct s; cbn; split; congruence. Qed.

Lemma strip_head_nonspace (c : ascii) (x : str) :
  is_space c = false -> exists u, strip (c :: x) = c :: u.
Proof.
  intros Hc. unfold strip, rstrip. rewrite (lstrip_head _ _ Hc).
  cbn [rev]. destruct (lstrip_app_last (rev x) c Hc) as (u & ->).
  exists (rev u). now rewrite rev_app_distr.
Qed.

Lemma trimmed_head (s : str) :
  trimmed s -> exists c x, s = c :: x /\ is_space c = false.
Proof.
  intros (c & d & m & [[-> _]| ->] & Hc & _); [now exists c, []|].
  now exists c, (m ++ [d]).
Qed.

Lemma refine_nonempty_one_line (s : section) :
  refine s <> [] /\ ~ In nl (refine s).
Proof.
  unfold refine.
  remember (strip (content s)) as text eqn:Etext.
  remember (flatten_newlines (strip (join [nl; nl]
              (pack_paragraphs (split [nl; nl] text) [] 0)))) as final eqn:Efinal.
  destruct (nonempty final) eqn:Ef; cbn [negb andb].
  - split; [now apply nonempty_true|].
    rewrite Efinal. apply flatten_newlines_no_newline.
  - destruct (nonempty text) eqn:Et.
    + split; [|apply flatten_newlines_no_newline].
      apply flatten_newlines_nonempty.
      apply nonempty_true in Et.
      assert (Htr : trimmed text) by (subst text; now apply strip_nonempty_trimmed).
      destruct (trimmed_head text Htr) as (c & x & E & Hc).
      rewrite E. unfold target_len.
      change (firstn 220 (c :: x)) with (c :: firstn 219 x).
      destruct (strip_head_nonspace c (firstn 219 x) Hc) as (u & ->).
      destruct (_ && _); [|discriminate].
      discriminate.
    + split; [discriminate|]. cbn. intuition discriminate.
Qed.

Lemma split_aux_no_sep (sep cur s : str) :
  contains sep s = false -> split_aux sep 0 cur s = [rev cur ++ s].
Proof.
  revert cur. induction s as [|c s IH]; intros cur H.
  - cbn. now rewrite app_nil_r.
  - cbn [contains] in H. apply orb_false_iff in H. destruct H as [Hs Hc].
    cbn [split_aux]. rewrite Hs, (IH (c :: cur) Hc). cbn [rev].
    now rewrite <- app_assoc.
Qed.

(** X15.  When the stripped content of a section has no blank
    line, the refined text is the whole stripped content with its newlines
    turned into spaces: the first paragraph is taken as it is, however long,
    and the target of 220 characters does not apply to it. *)
Theorem refine_single_paragraph (s : section)
  (Htext : strip (content s) <> [])
  (Hone : contains [nl; nl] (strip (content s)) = false) :
  refine s = flatten_newlines (strip (content s)).
Proof.
  unfold refine. remember (strip (content s)) as text eqn:Etext.
  assert (Htr : trimmed text) by (subst text; now apply strip_nonempty_trimmed).
  unfold split. rewrite (split_aux_no_sep _ [] text Hone). cbn [rev app].
  cbn [pack_paragraphs]. rewrite (strip_trimmed text Htr).
  rewrite (proj2 (nonempty_true text) Htext). rewrite orb_true_r.
  cbn [app pack_paragraphs join]. rewrite (strip_trimmed text Htr).
  rewrite (proj2 (nonempty_true _) (flatten_newlines_nonempty _ Htext)).
  reflexivity.
Qed.

(** A content of 300 characters on two lines comes back whole. *)
Lemma refine_single_paragraph_witness :
  refine (mkSection [] (chars 150 "a" ++ [nl] ++ chars 149 "b") 1 (lit "doc.pdf"))
  = chars 150 "a" ++ [sp] ++ chars 149 "b".
Proof.
  refine (eq_trans
            (refine_single_paragraph
               (mkSection [] (chars 150 "a" ++ [nl] ++ chars 149 "b") 1
                          (lit "doc.pdf")) _ _) _).
  - vm_compute. discriminate.
  - vm_compute. reflexivity.
  - vm_compute. reflexivity.
Defined.

(** X16.  The refined text of a section is never empty and
    never holds a newline; so it is with every entry of
    [subsection_analysis] that [rank_sections] returns. *)
Theorem report_texts_well_formed
  (hash : str -> Z) (search : list section -> str -> nat -> list candidate)
  (sections : list section) (persona job : str) (max_count : Z) :
  (forall s : section, refine s <> [] /\ ~ In nl (refine s))
  /\ Forall (fun d => dt_refined_text d <> [] /\ ~ In nl (dt_refined_text d))
            (snd (rank_sections hash search sections persona job max_count)).
Proof.
  split; [apply refine_nonempty_one_line|].
  rewrite rank_sections_present, present_maps. cbn [snd].
  apply Forall_forall. intros d Hd. apply in_map_iff in Hd.
  destruct Hd as (item & <- & _). cbn [detailed_of dt_refined_text].
  apply refine_nonempty_one_line.
Qed.

(** * The vector database: what [search] returns *)

Lemma py_getitem_In {A : Type} (l : list A) (i : Z) (x : A) :
  py_getitem l i = Some x -> In x l.
Proof.
  unfold py_getitem. destruct (0 <=? i)%Z.
  - apply nth_error_In.
  - destruct (_ <=? i)%Z; [apply nth_error_In|discriminate].
Qed.

Lemma py_getitem_None {A : Type} (l : list A) (i : Z) :
  (i < Z.of_nat (List.length l))%Z ->
  (py_getitem l i = None <-> (i < - Z.of_nat (List.length l))%Z).
Proof.
  intros Hlt. unfold py_getitem.
  destruct (0 <=? i)%Z eqn:E0.
  - apply Z.leb_le in E0. rewrite nth_error_None. split; lia.
  - apply Z.leb_gt in E0. destruct (_ <=? i)%Z eqn:E1.
    + apply Z.leb_le in E1. rewrite nth_error_None. split; lia.
    + apply Z.leb_gt in E1. split; [intros _; exact E1|reflexivity].
Qed.

Lemma py_getitem_last {A : Type} (l : list A) (d : A) :
  l <> [] -> py_getitem l (-1) = Some (last l d).
Proof.
  intros Hne. destruct (exists_last Hne) as (l' & x & ->).
  unfold py_getitem. cbn [Z.leb Z.compare].
  rewrite length_app. cbn [List.length].
  replace (- Z.of_nat (List.length l' + 1) <=? -1)%Z with true
    by (symmetry; apply Z.leb_le; lia).
  replace (Z.to_nat (Z.of_nat (List.length l' + 1) + -1)) with (List.length l')
    by lia.
  rewrite nth_error_app2 by lia. rewrite Nat.sub_diag. cbn [nth_error].
  now rewrite last_last.
Qed.

Lemma db_search_chunks (db : VectorDatabase) (raw : list (Q * Z))
      (results : list candidate) :
  db_search db raw = Some results ->
  Forall (fun r => In (fst r) (db_chunks db)) results.
Proof.
  revert results. induction raw as [|[score idx] rest IH]; intros results E.
  - cbn in E. injection E as <-. constructor.
  - cbn [db_search] in E.
    destruct (idx <? Z.of_nat (List.length (db_chunks db)))%Z.
    + destruct (py_getitem (db_chunks db) idx) as [chunk|] eqn:Eg; [|discriminate E].
      destruct (db_search db rest) as [results'|]; [|discriminate E].
      injection E as <-. constructor; [|now apply IH].
      cbn [fst]. now apply (py_getitem_In _ idx).
    + destruct (db_search db rest) as [results'|]; [|discriminate E].
      injection E as <-. now apply IH.
Qed.

(** X17.  [search] fails exactly when some index lies below
    [-len(chunks)].  Otherwise it returns one entry for each raw entry whose
    index is below [len(chunks)], in the same order and with its score, and
    every returned section is a stored chunk; an index of -1, which passes
    the test, yields the last chunk. *)
Theorem db_search_outcome (db : VectorDatabase) (raw : list (Q * Z)) :
  match db_search db raw with
  | Some results =>
      map snd results = map fst (passing db raw)
      /\ Forall (fun r => In (fst r) (db_chunks db)) results
      /\ Forall2 (fun r p => py_getitem (db_chunks db) (snd p) = Some (fst r))
                 results (passing db raw)
      /\ (forall score d, In (score, (-1)%Z) raw ->
                          In (last (db_chunks db) d, score) results)
  | None =>
      exists r, In r raw /\ (snd r < - Z.of_nat (List.length (db_chunks db)))%Z
  end.
Proof.
  induction raw as [|[score idx] rest IH].
  - cbn. repeat split; try constructor. intros score d [].
  - cbn [db_search]. unfold passing in *. cbn [filter snd].
    destruct (idx <? Z.of_nat (List.length (db_chunks db)))%Z eqn:Elt.
    + apply Z.ltb_lt in Elt.
      destruct (py_getitem (db_chunks db) idx) as [chunk|] eqn:Eg.
      * destruct (db_search db rest) as [results|].
        -- destruct IH as (Hs & Hin & Hget & Hlast). repeat split.
           ++ cbn [map fst snd]. now rewrite Hs.
           ++ constructor; [|exact Hin]. cbn [fst].
              now apply (py_getitem_In _ idx).
           ++ constructor; [exact Eg|exact Hget].
           ++ intros sc d [E|Hr]; [|right; now apply Hlast].
              injection E as -> ->. left.
              destruct (db_chunks db) as [|c0 l0] eqn:Ec; [discriminate Eg|].
              rewrite (py_getitem_last (c0 :: l0) d) in Eg by discriminate.
              now injection Eg as <-.
        -- destruct IH as (r & Hr & Hlow). exists r. split; [now right|exact Hlow].
      * exists (score, idx). split; [now left|].
        now apply (py_getitem_None _ _ Elt).
    + destruct (db_search db rest) as [results|].
      * destruct IH as (Hs & Hin & Hget & Hlast). repeat split; try assumption.
        intros sc d [E|Hr]; [|now apply Hlast].
        injection E as -> ->. apply Z.ltb_ge in Elt. lia.
      * destruct IH as (r & Hr & Hlow). exists r. split; [now right|exact Hlow].
Qed.

(** X18.  When the pool is what [search] returns
    from a fresh database filled with the filtered sections, every entry of
    [extracted_sections] and of [subsection_analysis] belongs to an input
    section with more than 150 characters of stripped content: it has the
    document and page number of that section, and its title or refined text
    is computed from it. *)
Theorem report_entries_come_from_sections
  (hash : str -> Z) (search : list section -> str -> nat -> list candidate)
  (sections : list section) (persona job : str) (max_count : Z)
  (raw : list (Q * Z))
  (Hdb : db_search (add_chunks new_database (filtered_sections sections)) raw
         = Some (search (filtered_sections sections) (make_query persona job) 100)) :
  Forall (fun e => exists s,
              In s sections /\ 150 < List.length (strip (content s))
              /\ extracted_place e = place s
              /\ ex_section_title e = meaningful_title s)
         (fst (rank_sections hash search sections persona job max_count))
  /\ Forall (fun d => exists s,
                 In s sections /\ 150 < List.length (strip (content s))
                 /\ detailed_place d = place s
                 /\ dt_refined_text d = refine s)
            (snd (rank_sections hash search sections persona job max_count)).
Proof.
  assert (Hsrc : forall c,
             In c (final_chosen hash search sections persona job max_count) ->
             In (fst c) sections /\ 150 < List.length (strip (content (fst c)))).
  { intros c Hc. unfold final_chosen in Hc.
    destruct (filtered_sections sections) as [|s0 l0] eqn:Ef; [destruct Hc|].
    rewrite <- Ef in *.
    apply (proj2 (select_bounded_subset hash persona max_count _)) in Hc.
    pose proof (db_search_chunks _ _ _ Hdb) as Hin.
    rewrite Forall_forall in Hin. specialize (Hin c Hc).
    cbn [add_chunks new_database db_chunks app] in Hin.
    now apply filtered_sections_In in Hin. }
  rewrite rank_sections_present, present_maps. cbn [fst snd].
  split; apply Forall_forall; intros x Hx; apply in_map_iff in Hx;
    destruct Hx as ([rank c] & <- & Hitem);
    (assert (Hc : In c (final_chosen hash search sections persona job max_count))
      by (rewrite <- (enumerate_snd _ 1); apply in_map_iff;
          exists (rank, c); now split));
    destruct (Hsrc c Hc) as [Hin Hlen];
    exists (fst c); now repeat split.
Qed.

(** Two sections, an index answer that names both, and room for two. *)
Lemma report_entries_come_from_sections_witness :
  Forall (fun e => exists s,
              In s [sec_methods_a; sec_other_b]
              /\ 150 < List.length (strip (content s))
              /\ extracted_place e = place s
              /\ ex_section_title e = meaningful_title s)
         (fst (rank_sections (fun s => Z.of_nat (List.length s)) search_two
                             [sec_methods_a; sec_other_b] analyst analyst 2)).
Proof.
  refine (proj1 (report_entries_come_from_sections
                   (fun s => Z.of_nat (List.length s)) search_two
                   [sec_methods_a; sec_other_b] analyst analyst 2
                   [((9 # 10)%Q, 0%Z); ((8 # 10)%Q, 1%Z)] _)).
  vm_compute. reflexivity.
Defined.

(** * The pipeline *)

Lemma code_inj (c d : ascii) : code c = code d -> c = d.
Proof.
  unfold code. intros H.
  rewrite <- (ascii_N_embedding c), <- (ascii_N_embedding d). now rewrite H.
Qed.

Lemma str_ltb_trans (s t u : str) :
  str_ltb s t = true -> str_ltb t u = true -> str_ltb s u = true.
Proof.
  revert t u. induction s as [|c s IH]; intros [|d t] [|e u]; cbn [str_ltb];
    try discriminate; try reflexivity.
  intros H1 H2. apply orb_true_iff in H1, H2. apply orb_true_iff.
  destruct H1 as [H1|H1], H2 as [H2|H2].
  - left. apply N.ltb_lt in H1, H2. apply N.ltb_lt. lia.
  - apply andb_true_iff in H2. destruct H2 as [H2 _].
    apply N.eqb_eq in H2. left. now rewrite <- H2.
  - apply andb_true_iff in H1. destruct H1 as [H1 _].
    apply N.eqb_eq in H1. left. now rewrite H1.
  - apply andb_true_iff in H1, H2. destruct H1 as [H1 H1'], H2 as [H2 H2'].
    apply N.eqb_eq in H1, H2. right. rewrite H1, H2, N.eqb_refl.
    cbn [andb]. now apply (IH t u).
Qed.

Lemma str_ltb_irrefl (s : str) : str_ltb s s = false.
Proof.
  induction s as [|c s IH]; [reflexivity|].
  cbn [str_ltb]. now rewrite N.ltb_irrefl, N.eqb_refl, IH.
Qed.

Lemma str_ltb_total (s t : str) :
  str_ltb s t = false -> str_eqb s t = false -> str_ltb t s = true.
Proof.
  revert t. induction s as [|c s IH]; intros [|d t]; cbn [str_ltb str_eqb];
    try discriminate; try reflexivity.
  intros H1 H2. apply orb_false_iff in H1. destruct H1 as [Hlt H1].
  apply N.ltb_ge in Hlt.
  destruct (code c =? code d)%N eqn:E.
  - apply N.eqb_eq in E. cbn [andb] in H1.
    rewrite (code_inj _ _ E), (proj2 (Ascii.eqb_eq d d) eq_refl) in H2.
    cbn [andb] in H2. rewrite E, N.eqb_refl, (IH t H1 H2).
    now rewrite orb_true_r.
  - apply N.eqb_neq in E. apply orb_true_iff. left. apply N.ltb_lt. lia.
Qed.

Lemma insert_unique_In (x : str) (l : list str) (z : str) :
  In z (insert_unique x l) <-> z = x \/ In z l.
Proof.
  induction l as [|y l IH]; cbn [insert_unique].
  - cbn. intuition.
  - destruct (str_ltb x y); [cbn; intuition|].
    destruct (str_eqb x y) eqn:E.
    + apply str_eqb_eq in E. subst y. cbn. intuition.
    + cbn [In]. rewrite IH. intuition.
Qed.

Lemma insert_unique_sorted (x : str) (l : list str) :
  StronglySorted str_lt l -> StronglySorted str_lt (insert_unique x l).
Proof.
  induction 1 as [|y l Hs IH Hy]; [repeat constructor|].
  cbn [insert_unique]. destruct (str_ltb x y) eqn:Elt.
  - constructor; [now constructor|]. constructor; [exact Elt|].
    apply (Forall_impl _ (P := str_lt y)); [|exact Hy].
    intros z Hz. now apply (str_ltb_trans x y z).
  - destruct (str_eqb x y) eqn:Eeq; [now constructor|].
    constructor; [exact IH|].
    apply Forall_forall. intros z Hz. apply insert_unique_In in Hz.
    destruct Hz as [->|Hz]; [now apply str_ltb_total|].
    rewrite Forall_forall in Hy. now apply Hy.
Qed.

Lemma sorted_set_sorted (l : list str) : StronglySorted str_lt (sorted_set l).
Proof.
  induction l as [|x l IH]; [constructor|].
  cbn [sorted_set fold_right]. now apply insert_unique_sorted.
Qed.

Lemma sorted_set_In (l : list str) (z : str) : In z (sorted_set l) <-> In z l.
Proof.
  induction l as [|x l IH]; [reflexivity|].
  cbn [sorted_set fold_right]. fold (sorted_set l).
  rewrite insert_unique_In, IH. cbn. intuition.
Qed.

Lemma sorted_strict_NoDup (l : list str) : StronglySorted str_lt l -> NoDup l.
Proof.
  induction 1 as [|y l Hs IH Hy]; constructor; [|exact IH].
  intros Hin. rewrite Forall_forall in Hy. specialize (Hy y Hin).
  unfold str_lt in Hy. now rewrite str_ltb_irrefl in Hy.
Qed.

(** X19.  [run_pipeline] stops without a report exactly when no
    page was extracted.  Otherwise the report lists the documents of the
    pages in strictly ascending order, each once; it has at most 10
    extracted sections, ranked 1, 2, ..., and as many analysis entries, each
    for the document and page of the extracted section at its position. *)
Theorem run_pipeline_report
  (hash : str -> Z) (search : list section -> str -> nat -> list candidate)
  (timestamp : str) (pages : list page) :
  match run_pipeline hash search timestamp pages with
  | None => pages = []
  | Some r =>
      pages <> []
      /\ StronglySorted str_lt (input_documents r)
      /\ NoDup (input_documents r)
      /\ (forall d, In d (input_documents r) <-> In d (map pg_document pages))
      /\ List.length (extracted_sections r) <= 10
      /\ map ex_importance_rank (extracted_sections r)
         = map Z.of_nat (seq 1 (List.length (extracted_sections r)))
      /\ map detailed_place (subsection_analysis r)
         = map extracted_place (extracted_sections r)
  end.
Proof.
  destruct pages as [|pg pages]; [reflexivity|].
  cbn [run_pipeline input_documents extracted_sections subsection_analysis].
  split; [discriminate|].
  split; [apply sorted_set_sorted|].
  split; [apply sorted_strict_NoDup, sorted_set_sorted|].
  split; [intros d; apply sorted_set_In|].
  rewrite rank_sections_present, present_maps. cbn [fst snd].
  rewrite !length_map, enumerate_length.
  split; [|split].
  - pose proof (final_chosen_length hash search
                  (split_into_sections (pg :: pages)) main_persona main_job
                  desired_output_sections) as H.
    unfold desired_output_sections in *. lia.
  - rewrite map_map. cbn [extracted_of ex_importance_rank].
    change (map (fun x : Z * candidate => fst x)
                (enumerate 1 ?l)) with (map fst (enumerate (Z.of_nat 1) l)).
    apply (enumerate_fst _ 1).
  - rewrite !map_map. reflexivity.
Qed.

(** * The classifier and the priority list: letter case and order *)

Lemma lower_char_idempotent (c : ascii) : lower_char (lower_char c) = lower_char c.
Proof. by_cases_on_ascii c. Qed.

Lemma lower_idempotent (s : str) : lower (lower s) = lower s.
Proof.
  unfold lower. rewrite map_map. apply map_ext. apply lower_char_idempotent.
Qed.

(** X20.  The theme of a section does not depend on the case of
    the letters of its title, of its content or of the persona. *)
Theorem classify_ignores_case (persona : str) (s : section) :
  classify (lower persona)
           (mkSection (lower (title s)) (lower (content s))
                      (page_number s) (document s))
  = classify persona s.
Proof.
  unfold classify, is_travel_planner. cbn [title content].
  rewrite lower_idempotent.
  replace (lower (lower (title s) ++ [sp] ++ lower (content s)))
    with (lower (title s ++ [sp] ++ content s)); [reflexivity|].
  unfold lower. rewrite !map_app, !map_map. cbn [map].
  f_equal; [|f_equal]; apply map_ext; intros c; symmetry;
    apply lower_char_idempotent.
Qed.

(** X21.  For a persona with the travel-planner marker the
    priority list starts with the four travel themes and the practical
    tips, followed by the general themes in their default order; for any
    other persona it is the default list.  Either way it holds the same 14
    themes, each once. *)
Theorem priority_list_order (persona : str) :
  (if is_travel_planner persona
   then current_priority_themes persona
        = [travel_cities; travel_activities; travel_food; travel_accommodation;
           travel_tips_practical; methods_procedures_steps;
           recommendations_solutions; results_findings_data;
           key_concepts_definitions; examples_applications;
           introduction_overview; conclusion_summary; supplemental_info;
           other_general]
   else current_priority_themes persona = DEFAULT_STRICT_PRIORITY_THEMES)
  /\ NoDup (current_priority_themes persona)
  /\ Permutation DEFAULT_STRICT_PRIORITY_THEMES (current_priority_themes persona).
Proof.
  destruct (priority_themes_facts persona) as (Hnd & Hperm & _).
  split; [|now split].
  unfold current_priority_themes.
  destruct (is_travel_planner persona); reflexivity.
Qed.

(** * The presenter: titles made from the content *)

Lemma lstrip_length (s : str) : List.length (lstrip s) <= List.length s.
Proof.
  induction s as [|c s IH]; [reflexivity|].
  cbn [lstrip]. destruct (is_space c); cbn [List.length]; lia.
Qed.

Lemma strip_length (s : str) : List.length (strip s) <= List.length s.
Proof.
  unfold strip, rstrip. rewrite length_rev.
  etransitivity; [apply lstrip_length|]. rewrite length_rev. apply lstrip_length.
Qed.

Lemma lstrip_before_space (u : str) :
  lstrip (u ++ [sp]) = []
  \/ exists z, lstrip (u ++ [sp]) = z ++ [sp] /\ List.length z <= List.length u.
Proof.
  induction u as [|c u IH]; [now left|].
  cbn [app lstrip]. destruct (is_space c).
  - destruct IH as [E|(z & E & Hz)]; [now left|].
    right. exists z. split; [exact E|cbn; lia].
  - right. now exists (c :: u).
Qed.

Lemma strip_before_space (u : str) :
  List.length (strip (u ++ [sp])) <= List.length u.
Proof.
  unfold strip, rstrip. rewrite length_rev.
  destruct (lstrip_before_space u) as [E|(z & E & Hz)]; rewrite E.
  - cbn. lia.
  - rewrite rev_app_distr. cbn [rev app lstrip].
    replace (is_space sp) with true by reflexivity.
    etransitivity; [apply lstrip_length|]. rewrite length_rev. exact Hz.
Qed.

Lemma build_candidate_shape (sentences : list str) (cand : str) :
  (cand = [] \/ exists u, cand = u ++ [sp] /\ List.length u < 100) ->
  build_candidate cand sentences = []
  \/ exists u, build_candidate cand sentences = u ++ [sp] /\ List.length u < 100.
Proof.
  revert cand. induction sentences as [|s sentences IH]; intros cand H.
  - exact H.
  - cbn [build_candidate]. destruct (_ && _) eqn:E; [|exact H].
    apply IH. right. exists (cand ++ strip s). split; [now rewrite app_assoc|].
    apply andb_true_iff in E. destruct E as [_ E]. apply Nat.ltb_lt in E.
    rewrite length_app in *. pose proof (strip_length s). lia.
Qed.

Lemma after_first_space_length (r r' : str) :
  after_first_space r = Some r' -> List.length r' < List.length r.
Proof.
  revert r'. induction r as [|c r IH]; intros r'; [discriminate|].
  cbn [after_first_space]. destruct (Ascii.eqb c sp).
  - intros E. injection E as <-. cbn. lia.
  - intros E. apply IH in E. cbn. lia.
Qed.

Lemma rsplit1_head_length (s : str) :
  List.length (rsplit1_head s) <= List.length s.
Proof.
  unfold rsplit1_head. destruct (after_first_space (rev s)) as [r|] eqn:E;
    [|reflexivity].
  apply after_first_space_length in E. rewrite length_rev in *. lia.
Qed.

(** X22.  The title built from the first sentences
    of the content is shorter than 100 characters, and the truncated first
    paragraph has at most 103; so every title that [meaningful_title] does
    not take from the title field is the synthetic label or has at most 103
    characters. *)
Theorem content_titles_are_short (s : section) :
  List.length (candidate_from_content (strip (content s))) < 100
  /\ List.length (fallback_snippet (strip (content s))) <= 103
  /\ (title_from_content s = synthetic_title s
      \/ List.length (title_from_content s) <= 103).
Proof.
  assert (Hc : forall text, List.length (candidate_from_content text) < 100).
  { intros text. unfold candidate_from_content.
    destruct (build_candidate_shape (findall_sentences text) [])
      as [E|(u & E & Hu)]; [now left|rewrite E; cbn; lia|].
    rewrite E. pose proof (strip_before_space u). lia. }
  assert (Hf : forall text, List.length (fallback_snippet text) <= 103).
  { intros text. unfold fallback_snippet.
    destruct (100 <? _) eqn:E.
    - rewrite length_app. cbn [lit list_ascii_of_string List.length].
      pose proof (rsplit1_head_length
                    (firstn 100 (strip (hd [] (split [nl; nl] text))))) as H.
      rewrite length_firstn in H. lia.
    - apply Nat.ltb_ge in E. lia. }
  split; [apply Hc|]. split; [apply Hf|].
  unfold title_from_content.
  destruct (content_candidate_ok _).
  - right. specialize (Hc (strip (content s))). lia.
  - destruct (snippet_is_bad _); [now left|right; apply Hf].
Qed.

Lemma remove_pdf_before (a rest : str) :
  forallb (fun c => negb (is_char 46 c)) a = true ->
  remove_all (lit ".pdf") 0 (a ++ rest) = a ++ remove_all (lit ".pdf") 0 rest.
Proof.
  induction a as [|c a IH]; [reflexivity|].
  cbn [forallb]. intros H. apply andb_true_iff in H. destruct H as [Hc Ha].
  cbn [app remove_all].
  replace (startswith (lit ".pdf") (c :: a ++ rest)) with false.
  - now rewrite (IH Ha).
  - symmetry. cbn [lit list_ascii_of_string startswith].
    apply negb_true_iff in Hc. unfold is_char, code in Hc.
    destruct (Ascii.eqb "." c) eqn:E; [|reflexivity].
    apply Ascii.eqb_eq in E. subst c. discriminate Hc.
Qed.

(** X23.  The label drops [.pdf] from the document name
    wherever it stands: for a name [a.pdf] followed by [b], where [a] has no
    dot, the label ends in [a] followed by what the removal leaves of [b];
    for a plain file name [a.pdf] it ends in [a]. *)
Theorem synthetic_title_drops_extension (s : section) (a b : str)
  (Hdoc : document s = a ++ lit ".pdf" ++ b)
  (Hname : forallb (fun c => negb (is_char 46 c)) a = true) :
  synthetic_title s
  = lit "Information from Page " ++ of_Z (page_number s) ++ lit " of "
    ++ a ++ remove_all (lit ".pdf") 0 b.
Proof.
  unfold synthetic_title. rewrite Hdoc, (remove_pdf_before a _ Hname).
  reflexivity.
Qed.

Lemma synthetic_title_drops_extension_witness :
  synthetic_title (mkSection [] [] 7 (lit "guide.pdf"))
  = lit "Information from Page 7 of guide"
  /\ synthetic_title (mkSection [] [] 7 (lit "guide.pdf.old.pdf"))
     = lit "Information from Page 7 of guide.old".
Proof.
  split.
  - exact (synthetic_title_drops_extension
             (mkSection [] [] 7 (lit "guide.pdf")) (lit "guide") [] eq_refl eq_refl).
  - exact (synthetic_title_drops_extension
             (mkSection [] [] 7 (lit "guide.pdf.old.pdf")) (lit "guide")
             (lit ".old.pdf") eq_refl eq_refl).
Defined.

(** * The section builder: what stays as it is *)

Lemma fold_blocks_appends (pg : page) (blocks : list str)
      (sections : list section) (cur : current) :
  exists added,
    fst (fold_left (process_block pg) blocks (sections, cur)) = sections ++ added.
Proof.
  revert sections cur. induction blocks as [|b blocks IH]; intros sections cur.
  - exists []. cbn. now rewrite app_nil_r.
  - cbn [fold_left].
    destruct (process_block_cases pg sections cur b)
      as [(E & _)|[(E & _)|E]]; rewrite E; try apply IH.
    destruct (IH (sections ++ [finalize cur])
                 (mkCurrent (first_line_of_block b) [b]
                            (pg_page_number pg) (pg_document pg)))
      as (added & Ha).
    exists (finalize cur :: added). rewrite Ha. now rewrite <- app_assoc.
Qed.

Lemma extend_last_app (l added : list section) (extra : str) :
  added <> [] -> extend_last (l ++ added) extra = l ++ extend_last added extra.
Proof.
  intros Hne. induction l as [|s l IH]; [reflexivity|].
  cbn [app]. destruct (l ++ added) as [|s' rest] eqn:E.
  - apply app_eq_nil in E. tauto.
  - rewrite <- IH. reflexivity.
Qed.

Lemma extend_last_removelast (l : list section) (extra : str) :
  l <> [] -> exists s, extend_last l extra = removelast l ++ [s].
Proof.
  intros Hne. induction l as [|s l IH]; [congruence|].
  destruct l as [|s' l'].
  - eexists. reflexivity.
  - destruct (IH ltac:(discriminate)) as (x & Hx).
    exists x.
    change (extend_last (s :: s' :: l') extra)
      with (s :: extend_last (s' :: l') extra).
    rewrite Hx. reflexivity.
Qed.

Lemma process_page_keeps (sections : list section) (pg : page) :
  exists tail, process_page sections pg = removelast sections ++ tail.
Proof.
  destruct sections as [|s0 l0] eqn:Es; [now exists (process_page [] pg)|].
  rewrite <- Es. assert (Hne : sections <> []) by (rewrite Es; discriminate).
  clear Es s0 l0.
  pose proof (app_removelast_last (mkSection [] [] 0 []) Hne) as Hl.
  set (r := removelast sections) in *.
  set (x := last sections (mkSection [] [] 0 [])) in *.
  unfold process_page.
  destruct (fold_blocks_appends pg (content_blocks (pg_content pg)) sections
                                (fresh_current pg)) as (added & Ha).
  destruct (fold_left _ _ _) as [sections' cur']. cbn [fst] in Ha. subst sections'.
  destruct (end_of_page_cases (sections ++ added) cur')
    as [E|[(E & _)|(E & _)]]; rewrite E.
  - exists (x :: added). rewrite Hl at 1. now rewrite <- app_assoc.
  - destruct added as [|a0 added0].
    + rewrite app_nil_r. destruct (extend_last_removelast sections
                                     ([nl; nl] ++ combined_content cur') Hne)
        as (s' & Hs').
      exists [s']. exact Hs'.
    + rewrite extend_last_app by discriminate.
      exists (x :: extend_last (a0 :: added0) ([nl; nl] ++ combined_content cur')).
      rewrite Hl at 1. now rewrite <- app_assoc.
  - exists (x :: added ++ [finalize cur']). rewrite Hl at 1.
    now rewrite <- !app_assoc.
Qed.

Lemma fold_pages_keeps (pages : list page) (sections : list section) :
  exists tail, fold_left process_page pages sections = removelast sections ++ tail.
Proof.
  revert sections. induction pages as [|pg pages IH]; intros sections.
  - destruct sections as [|s0 l0] eqn:Es; [now exists []|].
    rewrite <- Es.
    exists [last sections (mkSection [] [] 0 [])].
    apply app_removelast_last. rewrite Es. discriminate.
  - cbn [fold_left].
    destruct (IH (process_page sections pg)) as (tail2 & H2).
    destruct (process_page_keeps sections pg) as (tail1 & H1).
    destruct sections as [|s0 l0] eqn:Es; [now exists (fold_left process_page pages (process_page [] pg))|].
    rewrite <- Es in *.
    assert (Hne : sections <> []) by (rewrite Es; discriminate).
    assert (Ht1 : tail1 <> []).
    { intros ->. rewrite app_nil_r in H1.
      pose proof (process_page_length sections pg) as Hlen.
      pose proof (app_removelast_last (mkSection [] [] 0 []) Hne) as Hl.
      apply (f_equal (@List.length _)) in Hl. rewrite length_app in Hl.
      rewrite H1 in Hlen. cbn [List.length] in Hl. lia. }
    rewrite H2, H1, removelast_app by exact Ht1.
    exists (removelast tail1 ++ tail2). now rewrite <- app_assoc.
Qed.

(** X24.  Reading further pages never changes a
    section that is not the last one: the sections of [pages ++ more] start
    with all sections of [pages] but the last. *)
Theorem earlier_sections_are_final (pages more : list page) :
  exists tail,
    split_into_sections (pages ++ more)
    = removelast (split_into_sections pages) ++ tail.
Proof.
  unfold split_into_sections. rewrite fold_left_app. apply fold_pages_keeps.
Qed.

(** ** Pages of one block *)

Lemma one_block_fold (pg : page) (sections : list section) (b : str) :
  fold_left (process_block pg) [b] (sections, fresh_current pg)
  = (sections,
     mkCurrent (if is_potential_title b then first_line_of_block b else [])
               [b] (pg_page_number pg) (pg_document pg)).
Proof.
  cbn [fold_left]. unfold process_block.
  destruct (is_potential_title b); reflexivity.
Qed.

Lemma one_block_process_page (pg : page) (b : str) (sections : list section) :
  content_blocks (pg_content pg) = [b] ->
  process_page [] pg
  = [mkSection (if is_potential_title b then first_line_of_block b else [])
               b (pg_page_number pg) (pg_document pg)]
  /\ (sections <> [] -> List.length b < 80 ->
      last_content_length sections < 1000 ->
      process_page sections pg = extend_last sections ([nl; nl] ++ b)).
Proof.
  intros Hblocks.
  assert (Htr : Forall trimmed [b])
    by (rewrite <- Hblocks; apply content_blocks_trimmed).
  assert (Hc : forall t, combined_content
                           (mkCurrent t [b] (pg_page_number pg) (pg_document pg)) = b).
  { intros t. unfold combined_content. cbn [cur_blocks].
    now rewrite (strip_join_blocks _ Htr). }
  assert (Hb : b <> []).
  { apply Forall_inv in Htr. destruct (trimmed_head b Htr) as (c & x & -> & _).
    discriminate. }
  unfold process_page. rewrite Hblocks, !one_block_fold.
  split.
  - unfold end_of_page. rewrite Hc.
    rewrite (proj2 (nonempty_true b) Hb). cbn [negb andb].
    rewrite andb_false_r, orb_true_r. cbn [app]. unfold finalize.
    now rewrite Hc.
  - intros Hs Hlen Hlast.
    rewrite end_of_page_short; rewrite ?Hc; try assumption.
    apply Nat.ltb_lt in Hlast. now rewrite Hlast.
Qed.

(** X25.  A page with a single block [b]: alone, it gives exactly one
    section with content [b], whatever the length of [b], titled with the
    first line of [b] when that is a heading.  After pages that gave
    sections, when [b] has fewer than 80 characters and the last section
    fewer than 1000, it gives no section of its own: [b] is appended to the
    last section after a blank line, and a heading in it is no title. *)
Theorem one_block_page (pages : list page) (pg : page) (b : str)
  (Hblocks : content_blocks (pg_content pg) = [b]) :
  split_into_sections [pg]
  = [mkSection (if is_potential_title b then first_line_of_block b else [])
               b (pg_page_number pg) (pg_document pg)]
  /\ (split_into_sections pages <> [] -> List.length b < 80 ->
      last_content_length (split_into_sections pages) < 1000 ->
      split_into_sections (pages ++ [pg])
      = extend_last (split_into_sections pages) ([nl; nl] ++ b)).
Proof.
  destruct (one_block_process_page pg b (split_into_sections pages) Hblocks)
    as [H1 H2].
  split; [exact H1|]. intros Hs Hlen Hlast.
  change (split_into_sections (pages ++ [pg]))
    with (fold_left process_page (pages ++ [pg]) []).
  rewrite fold_left_app. now apply H2.
Qed.

(** A page that is one heading line: alone, and after a page with text. *)
Lemma one_block_page_witness :
  split_into_sections [mkPage (lit "doc.pdf") 1 (lit "Second Heading")]
  = [mkSection (lit "Second Heading") (lit "Second Heading") 1 (lit "doc.pdf")]
  /\ split_into_sections [page_first; mkPage (lit "doc.pdf") 2 (lit "Second Heading")]
     = [mkSection [] (lit "one" ++ [nl; nl] ++ lit "Second Heading") 1 (lit "a.pdf")].
Proof.
  split.
  - exact (proj1 (one_block_page [] (mkPage (lit "doc.pdf") 1 (lit "Second Heading"))
                                 (lit "Second Heading") eq_refl)).
  - refine (proj2 (one_block_page [page_first]
                                  (mkPage (lit "doc.pdf") 2 (lit "Second Heading"))
                                  (lit "Second Heading") eq_refl)
                  _ _ _).
    + vm_compute. discriminate.
    + vm_compute. lia.
    + vm_compute. lia.
Defined.

(** * The presenter: the first paragraph of the refined text *)






(** * The section builder: titles and contents *)

Lemma split_aux_head_prefix (sep s cur : str) :
  exists z rest t, split_aux sep 0 cur s = (rev cur ++ z) :: rest /\ s = z ++ t.
Proof.
  revert cur. induction s as [|c s IH]; intros cur.
  - exists [], [], []. cbn. now rewrite app_nil_r.
  - cbn [split_aux]. destruct (startswith sep (c :: s)).
    + exists [], (split_aux sep (List.length sep - 1) [] s), (c :: s).
      now rewrite app_nil_r.
    + destruct (IH (c :: cur)) as (z & rest & t & E & Es).
      exists (c :: z), rest, t. rewrite E, Es. cbn [rev].
      now rewrite <- app_assoc.
Qed.

Lemma lstrip_suffix (s : str) : exists pre, s = pre ++ lstrip s.
Proof.
  induction s as [|c s IH]; [now exists []|].
  cbn [lstrip]. destruct (is_space c); [|now exists []].
  destruct IH as (pre & E). exists (c :: pre). cbn [app]. now rewrite <- E.
Qed.

Lemma rstrip_prefix (s : str) : exists t, s = rstrip s ++ t.
Proof.
  unfold rstrip. destruct (lstrip_suffix (rev s)) as (pre & E).
  exists (rev pre). rewrite <- rev_app_distr, <- E. now rewrite rev_involutive.
Qed.

Lemma first_line_prefix (b : str) :
  trimmed b -> exists t, b = first_line_of_block b ++ t.
Proof.
  intros Htr. destruct (trimmed_head b Htr) as (c & x & Eb & Hc).
  unfold first_line_of_block, split.
  destruct (split_aux_head_prefix [nl] b []) as (z & rest & t & E & Et).
  rewrite E. cbn [rev app hd].
  assert (Hl : lstrip z = z).
  { destruct z as [|c0 z0]; [reflexivity|].
    rewrite Eb in Et. cbn [app] in Et. injection Et as <- _.
    now apply lstrip_head. }
  unfold strip. rewrite Hl.
  destruct (rstrip_prefix z) as (t' & Ez).
  exists (t' ++ t). rewrite app_assoc, <- Ez. exact Et.
Qed.

Lemma join_snoc (sep : str) (blocks : list str) (b : str) :
  blocks <> [] -> join sep (blocks ++ [b]) = join sep blocks ++ sep ++ b.
Proof.
  induction blocks as [|x blocks IH]; [congruence|]. intros _.
  destruct blocks as [|y blocks].
  - reflexivity.
  - change (join sep ((x :: y :: blocks) ++ [b]))
      with (x ++ sep ++ join sep ((y :: blocks) ++ [b])).
    rewrite IH by discriminate.
    change (join sep (x :: y :: blocks)) with (x ++ sep ++ join sep (y :: blocks)).
    now rewrite <- !app_assoc.
Qed.

(** X27.  The content of every emitted section starts with the title of
    the section: the heading line is kept in the content. *)
Theorem content_starts_with_title (pages : list page) :
  Forall (fun s => exists rest, content s = title s ++ rest)
         (split_into_sections pages).
Proof.
  apply (split_into_sections_invariant
           (Forall (fun s => exists rest, content s = title s ++ rest))
           (fun _ cur =>
              Forall trimmed (cur_blocks cur)
              /\ (cur_blocks cur = [] -> cur_title cur = [])
              /\ exists rest, join [sp] (cur_blocks cur) = cur_title cur ++ rest)).
  - intros pg. cbn. repeat split; [constructor|now exists []].
  - intros pg sections cur block Hin HI (Htr & Hempty & rest & Hj).
    assert (Hb : trimmed block).
    { pose proof (content_blocks_trimmed (pg_content pg)) as H.
      rewrite Forall_forall in H. now apply H. }
    assert (Happ : Forall trimmed (cur_blocks cur ++ [block]))
      by (apply Forall_app; split; [exact Htr|now constructor]).
    destruct (first_line_prefix block Hb) as (t & Et).
    destruct (process_block_cases pg sections cur block)
      as [(E & _)|[(E & _ & Ht & Hbl)|E]]; rewrite E;
      cbn [fst snd cur_blocks cur_title append_block].
    + split.
      * apply Forall_app. split; [exact HI|]. constructor; [|constructor].
        cbn [finalize content title]. unfold combined_content.
        rewrite (strip_join_blocks _ Htr). now exists rest.
      * repeat split; [now constructor|discriminate|].
        exists t. exact Et.
    + split; [exact HI|]. rewrite Hbl. cbn [app join].
      repeat split; [now constructor|discriminate|now exists t].
    + split; [exact HI|]. split; [exact Happ|]. split.
      * intros E0. apply app_eq_nil in E0. destruct E0 as [_ E0]. discriminate.
      * destruct (cur_blocks cur) as [|x l] eqn:Ec.
        -- rewrite (Hempty eq_refl). now exists block.
        -- rewrite join_snoc by discriminate. rewrite Hj.
           exists (rest ++ [sp] ++ block). now rewrite <- app_assoc.
  - intros pg sections cur HI (Htr & Hempty & rest & Hj).
    destruct (end_of_page_cases sections cur) as [E|[(E & _)|(E & _)]];
      rewrite E; try assumption.
    + apply extend_last_Forall; [|assumption].
      intros s (r & Hr). cbn [content title]. exists (r ++ [nl; nl] ++ combined_content cur).
      rewrite Hr. now rewrite <- app_assoc.
    + apply Forall_app. split; [assumption|]. constructor; [|constructor].
      cbn [finalize content title]. unfold combined_content.
      rewrite (strip_join_blocks _ Htr). now exists rest.
  - constructor.
Qed.

(** * The selector: which identifiers pass 1 records *)

Lemma last_identifier_nonempty (hash : str -> Z) (results : list candidate)
      (sid sid' : option identifier) :
  results <> [] -> last_identifier hash results sid = last_identifier hash results sid'.
Proof.
  unfold last_identifier. revert sid sid'.
  induction results as [|r results IH]; [congruence|]. intros sid sid' _.
  cbn [fold_left]. reflexivity.
Qed.

Lemma pass1_recorded (hash : str -> Z) (persona : str) (max_count : Z)
      (results : list candidate) (themes : list theme)
      (chosen : list candidate) (ids : list identifier) (sid : option identifier) :
  Forall (fun i => last_identifier hash results None = Some i) ids ->
  Forall (fun i => last_identifier hash results None = Some i)
         (snd (fst (pass1 hash persona max_count results themes (chosen, ids, sid)))).
Proof.
  revert chosen ids sid.
  induction themes as [|t themes IH]; intros chosen ids sid H; [exact H|].
  cbn [pass1]. destruct (at_capacity max_count chosen); [exact H|].
  pose proof (scan_best_in_pool hash persona results ids t sid) as Hb.
  rewrite scan_sec_identifier.
  destruct (best_sec_for_theme (scan hash persona results ids t sid)) as [b|].
  - apply IH. destruct (Hb b eq_refl) as (Hin & _).
    assert (Hne : results <> []) by (intros ->; destruct Hin).
    rewrite (last_identifier_nonempty hash results sid None Hne).
    destruct (last_identifier hash results None) as [i|]; [|exact H].
    cbn [add_sec_identifier]. now constructor.
  - now apply IH.
Qed.

Lemma last_identifier_last (hash : str -> Z) (results : list candidate)
      (sid : option identifier) (i : identifier) (d : candidate) :
  last_identifier hash results None = Some i ->
  results <> [] /\ i = sec_identifier_of hash (fst (last results d)).
Proof.
  intros H. assert (Hne : results <> []) by (intros ->; discriminate H).
  split; [exact Hne|].
  destruct (exists_last Hne) as (l & x & ->).
  unfold last_identifier in H. rewrite fold_left_app in H. cbn [fold_left] in H.
  injection H as <-. now rewrite last_last.
Qed.

(** X28.  Whatever pass 1 picks, the only identifier it ever records is
    that of the last entry of the pool; the identifier of a picked section
    is recorded only when that section is the last entry. *)
Theorem pass1_records_the_last_entry
  (hash : str -> Z) (persona : str) (max_count : Z) (results : list candidate) :
  Forall (fun i => results <> []
                   /\ forall d, i = sec_identifier_of hash (fst (last results d)))
         (snd (fst (pass1 hash persona max_count results
                          (current_priority_themes persona) ([], [], None)))).
Proof.
  pose proof (pass1_recorded hash persona max_count results
                (current_priority_themes persona) [] [] None
                (Forall_nil _)) as H.
  apply (Forall_impl _ (P := fun i => last_identifier hash results None = Some i));
    [|exact H].
  intros i Hi. split.
  - intros ->. discriminate Hi.
  - intros d. now apply (last_identifier_last hash results None i d).
Qed.
